(** * epydoc.util: a shallow embedding of the utility module

    The module [epydoc/util.py] collects independent helpers: predicates
    classifying file names and dotted names, the word-wrapper, the HTML
    escaper, the subprocess runner and the terminal controller.

    Conventions of the embedding.
    - The module is the [six] port, read as Python 3 runs it.  A Python
      string is a [list ascii] ([str]): a text of characters with code
      points 0 to 255, or a byte string.  The classes of characters are the
      ones Python 3 applies to such a text: white space for [str.rstrip()]
      and [str.split()], the Unicode-aware [\w] of a text pattern, the
      ASCII [\d] of a byte pattern.
    - A Python [int] is a [Z]; [' ' * n] is [spaces n], empty for [n <= 0].
    - A call that may raise returns a [result]: [Ok v] or [Raise e].
    - A regular expression is embedded as its [matcher]: the function giving
      the length of the match that starts at the head of the subject.
      [re_split], [re_sub] and [re_match] are written once over matchers.
    - The operating system (file system, processes, terminal database) is a
      record of the answers it gives; [os.path] is the POSIX one. *)

From Stdlib Require Import String Ascii List ZArith Lia Bool Arith.
Import ListNotations.

(* ================================================================== *)
(** * Part I: the model *)
(* ================================================================== *)

(** ** Strings and characters *)

Definition str := list ascii.

(** [py "abc"] is the Python string ['abc']. *)
Definition py (s : string) : str := list_ascii_of_string s.

Definition NL : ascii := "010"%char.
Definition CR : ascii := "013"%char.
Definition TAB : ascii := "009"%char.
Definition SP : ascii := " "%char.
Definition DQUOTE : ascii := "034"%char.

Definition str_eqb (a b : str) : bool :=
  if list_eq_dec ascii_dec a b then true else false.

Definition mem (c : ascii) (s : str) : bool := existsb (Ascii.eqb c) s.

Definition str_in (x : str) (l : list str) : bool := existsb (str_eqb x) l.

(** [' ' * n] *)
Definition spaces (n : Z) : str := repeat SP (Z.to_nat n).

Definition len (s : str) : Z := Z.of_nat (length s).

(** [c.isspace()], the white space [str.rstrip()] strips and [str.split()]
    cuts at: tab, newline, vertical tab, form feed and carriage return
    (9 to 13), the four separators 28 to 31, the blank, the next-line
    character 133 and the no-break space 160. *)
Definition isspace (c : ascii) : bool :=
  let n := nat_of_ascii c in
  ((9 <=? n) && (n <=? 13)) || ((28 <=? n) && (n <=? 31)) || (n =? 32)
  || (n =? 133) || (n =? 160).

(** The class [\d] of a byte pattern: [[0-9]]. *)
Definition isdigit (c : ascii) : bool :=
  let n := nat_of_ascii c in (48 <=? n) && (n <=? 57).

(** The class [[a-zA-Z]]. *)
Definition is_ascii_letter (c : ascii) : bool :=
  let n := nat_of_ascii c in
  ((65 <=? n) && (n <=? 90)) || ((97 <=? n) && (n <=? 122)).

(** The class [[a-zA-Z_]]. *)
Definition is_ident_start (c : ascii) : bool :=
  is_ascii_letter c || Ascii.eqb c "_".

(** The class [\w] of a text pattern: the underscore and every character
    that is alphanumeric for Unicode.  Below 256 these are the ASCII
    letters and digits, the ordinal indicators 170 and 186, the micro sign
    181, the superscripts 178, 179 and 185, the fractions 188 to 190, and
    the letters 192 to 255 but for the signs 215 and 247. *)
Definition is_word (c : ascii) : bool :=
  let n := nat_of_ascii c in
  is_ascii_letter c || isdigit c || Ascii.eqb c "_"
  || (n =? 170) || (n =? 178) || (n =? 179) || (n =? 181) || (n =? 185)
  || (n =? 186) || ((188 <=? n) && (n <=? 190))
  || ((192 <=? n) && (n <=? 214)) || ((216 <=? n) && (n <=? 246))
  || (248 <=? n).

(** A character of ASCII: what [encode('ascii')] and [decode('ascii')]
    accept. *)
Definition is_ascii (c : ascii) : bool := nat_of_ascii c <? 128.

(** Longest prefix of [s] whose characters satisfy [p]: its length. *)
Fixpoint span_len (p : ascii -> bool) (s : str) : nat :=
  match s with
  | [] => 0
  | c :: t => if p c then S (span_len p t) else 0
  end.

Fixpoint dropwhile (p : ascii -> bool) (s : str) : str :=
  match s with
  | [] => []
  | c :: t => if p c then dropwhile p t else s
  end.

(** [s.rstrip()] *)
Definition rstrip (s : str) : str := rev (dropwhile isspace (rev s)).

(** [s.rstrip(c)] for a one-character argument. *)
Definition rstrip_char (c : ascii) (s : str) : str :=
  rev (dropwhile (Ascii.eqb c) (rev s)).

(** [s.startswith(p)] *)
Fixpoint startswith (s p : str) : bool :=
  match p, s with
  | [], _ => true
  | _ :: _, [] => false
  | a :: p', b :: s' => Ascii.eqb a b && startswith s' p'
  end.

(** [s.expandtabs()]: the column restarts after a newline or a carriage
    return, and a tab advances to the next multiple of the tab size. *)
Fixpoint expandtabs_from (tabsize col : nat) (s : str) : str :=
  match s with
  | [] => []
  | c :: t =>
    if Ascii.eqb c TAB then
      let incr := tabsize - col mod tabsize in
      repeat SP incr ++ expandtabs_from tabsize (col + incr) t
    else if Ascii.eqb c NL || Ascii.eqb c CR then
      c :: expandtabs_from tabsize 0 t
    else c :: expandtabs_from tabsize (col + 1) t
  end.

Definition expandtabs (s : str) : str := expandtabs_from 8 0 s.

(** [s.replace(old, new)] for a one-character [old], the only form the
    module uses. *)
Fixpoint replace (old : ascii) (new : str) (s : str) : str :=
  match s with
  | [] => []
  | c :: t =>
    if Ascii.eqb c old then new ++ replace old new t
    else c :: replace old new t
  end.

(** The lines of a text, as [s.split('\n')] gives them. *)
Fixpoint lines (s : str) : list str :=
  match s with
  | [] => [[]]
  | c :: t =>
    if Ascii.eqb c NL then [] :: lines t
    else match lines t with
         | [] => [[c]]
         | l :: ls => (c :: l) :: ls
         end
  end.

(** ** Values, exceptions and results *)

Inductive pyval : Type :=
| PyNone
| PyBool (b : bool)
| PyInt (z : Z)
| PyStr (s : str)
| PyStrList (l : list str)
| PyMatch (matched : str)     (* a match object of [re] *)
| PyMethod (name : str).      (* a bound method *)

Inductive exn : Type :=
| TypeError
| IndexError
| NameError
| ImportError
| AttributeError (name : str)
| ValueError (message : str)
| UnicodeEncodeError
| UnicodeDecodeError
| CursesError (message : str)  (* [curses.error] *)
| IOError (message : str)
| OSError (message : str)     (* an [OSError] that is no [RunSubprocessError] *)
| RunSubprocessError (message : str) (out err : str).

Inductive result (A : Type) : Type :=
| Ok (a : A)
| Raise (e : exn).

Arguments Ok {A} a.
Arguments Raise {A} e.

Definition bind {A B : Type} (r : result A) (k : A -> result B) : result B :=
  match r with
  | Ok a => k a
  | Raise e => Raise e
  end.

Notation "x <- r ;; k" := (bind r (fun x => k))
  (at level 61, r at next level, right associativity).

(** [s.encode('ascii')] of a text and [b.decode('ascii')] of a byte string:
    the same characters, when all of them are ASCII. *)
Definition encode_ascii (s : str) : result str :=
  if forallb is_ascii s then Ok s else Raise UnicodeEncodeError.

Definition decode_ascii_text (b : str) : result str :=
  if forallb is_ascii b then Ok b else Raise UnicodeDecodeError.

(** Truth value of an object, as [if] and [and] take it. *)
Definition truthy (v : pyval) : bool :=
  match v with
  | PyNone => false
  | PyBool b => b
  | PyInt z => negb (z =? 0)%Z
  | PyStr s => match s with [] => false | _ => true end
  | PyStrList l => match l with [] => false | _ => true end
  | PyMatch _ => true
  | PyMethod _ => true
  end.

(** ** Regular expressions as matchers *)

(** [m s = Some n]: the pattern matches the first [n] characters of [s];
    [None]: it does not match at the head of [s].  Every pattern of the
    module consumes at least one character when it matches. *)
Definition matcher := str -> option nat.

(** [re.split(r'(P)', s)] for a pattern [P] wrapped in one group: the text
    between matches alternates with the matched separators.  [seg] is the
    text read since the last separator; [fuel] bounds the scan by the
    length of the subject. *)
Fixpoint re_split_from (m : matcher) (fuel : nat) (seg s : str) : list str :=
  match fuel with
  | O => [seg ++ s]
  | S fuel' =>
    match s with
    | [] => [seg]
    | c :: t =>
      match m s with
      | Some n => seg :: firstn n s :: re_split_from m fuel' [] (skipn n s)
      | None => re_split_from m fuel' (seg ++ [c]) t
      end
    end
  end.

Definition re_split (m : matcher) (s : str) : list str :=
  re_split_from m (length s) [] s.

(** [re.sub(P, repl, s)] for a replacement that gives a string for each
    match, from left to right: a template, or a constant. *)
Fixpoint re_sub_from (m : matcher) (repl : str -> result str)
         (fuel : nat) (s : str) : result str :=
  match fuel with
  | O => Ok s
  | S fuel' =>
    match s with
    | [] => Ok []
    | c :: t =>
      match m s with
      | Some n =>
        r <- repl (firstn n s) ;;
        rest <- re_sub_from m repl fuel' (skipn n s) ;;
        Ok (r ++ rest)
      | None =>
        rest <- re_sub_from m repl fuel' t ;;
        Ok (c :: rest)
      end
    end
  end.

Definition re_sub (m : matcher) (repl : str -> result str) (s : str)
  : result str :=
  re_sub_from m repl (length s) s.

(** [re.sub(P, f, s)] with a function [f] that may return any object.
    [f] is called on each match, from left to right, and what it returns
    is kept with the text between the matches; an exception [f] raises
    ends the call.  The pieces are joined once the subject is read, not
    before. *)
Fixpoint re_sub_pieces (m : matcher) (f : str -> result pyval)
         (fuel : nat) (s : str) : result (list pyval) :=
  match fuel with
  | O => Ok (map (fun c => PyStr [c]) s)
  | S fuel' =>
    match s with
    | [] => Ok []
    | c :: t =>
      match m s with
      | Some n =>
        v <- f (firstn n s) ;;
        rest <- re_sub_pieces m f fuel' (skipn n s) ;;
        Ok (v :: rest)
      | None =>
        rest <- re_sub_pieces m f fuel' t ;;
        Ok (PyStr [c] :: rest)
      end
    end
  end.

(** The join of the pieces: [None] counts as the empty string, and any
    other object that is no string raises [TypeError]. *)
Fixpoint join_pieces (pieces : list pyval) : result str :=
  match pieces with
  | [] => Ok []
  | PyStr r :: rest => tail <- join_pieces rest ;; Ok (r ++ tail)
  | PyNone :: rest => join_pieces rest
  | _ :: _ => Raise TypeError
  end.

Definition re_sub_function (m : matcher) (f : str -> result pyval)
           (s : str) : result str :=
  pieces <- re_sub_pieces m f (length s) s ;;
  join_pieces pieces.

(** [$] after a prefix of [n] characters: at the end of the subject, or
    just before a newline that ends it. *)
Definition at_dollar (s : str) (n : nat) : bool :=
  match skipn n s with
  | [] => true
  | [c] => Ascii.eqb c NL
  | _ => false
  end.

(** [re.match(P + '$', s)] where [body] matches [P] at the head of [s]:
    the match object, or [None]. *)
Definition re_match_dollar (body : matcher) (s : str) : pyval :=
  match body s with
  | Some n => if at_dollar s n then PyMatch (firstn n s) else PyNone
  | None => PyNone
  end.

(** ** Text processing *)

(** The separator [( +|\n)]: a run of blanks, as long as it goes, or one
    newline. *)
Definition pat_blank : matcher := fun s =>
  match s with
  | [] => None
  | c :: _ =>
    if Ascii.eqb c SP then Some (span_len (Ascii.eqb SP) s)
    else if Ascii.eqb c NL then Some 1
    else None
  end.

(** The separator [( +|\n|[^ \nS]*[S])] for split characters [S]: the third
    branch takes the longest run free of blanks, newlines and split
    characters, and needs a split character right after it. *)
Definition pat_blank_or_splitchar (splitchars : str) : matcher := fun s =>
  match pat_blank s with
  | Some n => Some n
  | None =>
    let plain c :=
      negb (Ascii.eqb c SP || Ascii.eqb c NL || mem c splitchars) in
    let run := span_len plain s in
    match nth_error s run with
    | Some c => if mem c splitchars then Some (S run) else None
    | None => None
    end
  end.

(** [chunk[:1] not in ('\n', ' ')] *)
Definition starts_plain (chunk : str) : bool :=
  match chunk with
  | [] => true
  | c :: _ => negb (Ascii.eqb c NL || Ascii.eqb c SP)
  end.

(** The loop of [wordwrap] over the chunks that remain, with the column
    [charindex] and the pieces appended to [result] so far. *)
Fixpoint wrap_loop (indent right : Z) (chunks : list str)
         (charindex : Z) (result : list str) : list str :=
  match chunks with
  | [] => result
  | chunk :: rest =>
    if ((charindex + len chunk >? right)%Z && (charindex >? 0)%Z)
       || str_eqb chunk [NL]
    then
      let result := result ++ [NL :: spaces indent] in
      let charindex := indent in
      if starts_plain chunk then
        wrap_loop indent right rest (charindex + len chunk)%Z
                  (result ++ [chunk])
      else wrap_loop indent right rest charindex result
    else
      wrap_loop indent right rest (charindex + len chunk)%Z
                (result ++ [chunk])
  end.

(** The chunks [wordwrap] walks over. *)
Definition wordwrap_chunks (s splitchars : str) : list str :=
  match splitchars with
  | _ :: _ => re_split (pat_blank_or_splitchar splitchars) (expandtabs s)
  | [] => re_split pat_blank (expandtabs s)
  end.

Definition wordwrap (s : str) (indent right startindex : Z)
           (splitchars : str) : str :=
  let chunks := wordwrap_chunks s splitchars in
  let result := [spaces (indent - startindex)] in
  let charindex := Z.max indent startindex in
  rstrip (concat (wrap_loop indent right chunks charindex result)) ++ [NL].

Definition plaintext_to_html (s : str) : str :=
  let s := replace DQUOTE (py "&quot;") (replace "&" (py "&amp;") s) in
  let s := replace ">" (py "&gt;") (replace "<" (py "&lt;") s) in
  s.

(** ** [os.path] (POSIX) and the file system *)

(** [s.rfind(c)]: the index of the last [c] in [s], or [-1]. *)
Fixpoint rfind_from (c : ascii) (s : str) (i found : Z) : Z :=
  match s with
  | [] => found
  | x :: t => rfind_from c t (i + 1)%Z (if Ascii.eqb x c then i else found)
  end.

Definition rfind (s : str) (c : ascii) : Z := rfind_from c s 0%Z (-1)%Z.

(** [s[:i]] and [s[i:]] for an index [i >= 0]. *)
Definition upto (s : str) (i : Z) : str := firstn (Z.to_nat i) s.
Definition from (s : str) (i : Z) : str := skipn (Z.to_nat i) s.

(** [os.path.split(p)]: the head loses its trailing slashes unless it is
    made of slashes only. *)
Definition path_split (p : str) : str * str :=
  let i := (rfind p "/" + 1)%Z in
  let head := upto p i in
  let tail := from p i in
  let head :=
    if negb (str_eqb head []) && negb (forallb (Ascii.eqb "/") head)
    then rstrip_char "/" head else head in
  (head, tail).

(** [os.path.splitext(p)]: the extension starts at the last dot of the
    last component, unless that component has only dots before it. *)
Definition splitext (p : str) : str * str :=
  let sepIndex := rfind p "/" in
  let dotIndex := rfind p "." in
  if (dotIndex >? sepIndex)%Z then
    let stem := from (upto p dotIndex) (sepIndex + 1) in
    if existsb (fun c => negb (Ascii.eqb c ".")) stem
    then (upto p dotIndex, from p dotIndex)
    else (p, [])
  else (p, []).

(** [os.path.join(a, b)] *)
Definition path_join (a b : str) : str :=
  if startswith b (py "/") then b
  else if str_eqb a [] || startswith (rev a) (py "/") then a ++ b
  else a ++ py "/" ++ b.

(** What the module asks of the file system.  [listdir] may raise (a
    directory that cannot be read); [abspath] depends on the working
    directory. *)
Record filesystem : Type := {
  isfile : str -> bool;
  isdir : str -> bool;
  path_exists : str -> bool;
  listdir : str -> result (list str);
  abspath : str -> str
}.

(** ** Python source types *)

Definition PY_SRC_EXTENSIONS : list str := [py ".py"; py ".pyw"].
Definition PY_BIN_EXTENSIONS : list str := [py ".pyc"; py ".so"; py ".pyd"].

(** [[a-zA-Z_]\w*], before the [$]. *)
Definition pat_identifier : matcher := fun s =>
  match s with
  | c :: t => if is_ident_start c then Some (S (span_len is_word t)) else None
  | [] => None
  end.

(** [(\.\w+)*] at the head of [s]: the characters it takes.  A repetition
    is a dot followed by at least one word character. *)
Fixpoint dotted_tail (fuel : nat) (s : str) : nat :=
  match fuel with
  | O => 0
  | S fuel' =>
    match s with
    | c :: t =>
      if Ascii.eqb c "." then
        match span_len is_word t with
        | O => 0
        | S k => S (S k) + dotted_tail fuel' (skipn (S k) t)
        end
      else 0
    | [] => 0
    end
  end.

(** [\w+(\.\w+)*], before the [$]. *)
Definition pat_dotted_name : matcher := fun s =>
  match span_len is_word s with
  | O => None
  | S k => Some (S k + dotted_tail (length s) (skipn (S k) s))
  end.

(** [isinstance(v, six.string_types)], with the string when it holds. *)
Definition as_string (v : pyval) : option str :=
  match v with
  | PyStr s => Some s
  | _ => None
  end.

(** [a and b] for a Boolean [a]: [False] when [a] is false, else [b]. *)
Definition and_then (a : bool) (b : pyval) : pyval :=
  if a then b else PyBool false.

Definition is_module_file (fs : filesystem) (path : pyval) : result pyval :=
  match as_string path with
  | None => Ok (PyBool false)
  | Some path =>
    let '(dir, filename) := path_split path in
    let '(basename, extension) := splitext filename in
    Ok (and_then (isfile fs path)
          (match re_match_dollar pat_identifier basename with
           | PyMatch _ =>
             PyBool (str_in extension (PY_SRC_EXTENSIONS ++ PY_BIN_EXTENSIONS))
           | no_match => no_match
           end))
  end.

Definition is_src_filename (fs : filesystem) (filename : pyval)
  : result pyval :=
  match as_string filename with
  | None => Ok (PyBool false)
  | Some filename =>
    if negb (path_exists fs filename) then Ok (PyBool false)
    else Ok (PyBool (str_in (snd (splitext filename)) PY_SRC_EXTENSIONS))
  end.

(** The [for ... else] of [is_package_dir] over the directory entries. *)
Fixpoint has_init_module (fs : filesystem) (dirname : str)
         (names : list str) : result pyval :=
  match names with
  | [] => Ok (PyBool false)
  | name :: rest =>
    let filename := path_join dirname name in
    if startswith name (py "__init__.") then
      v <- is_module_file fs (PyStr filename) ;;
      if truthy v then Ok (PyBool true)
      else has_init_module fs dirname rest
    else has_init_module fs dirname rest
  end.

Definition is_package_dir (fs : filesystem) (dirname : pyval)
  : result pyval :=
  match as_string dirname with
  | None => Ok (PyBool false)
  | Some dirname =>
    if negb (isdir fs dirname) then Ok (PyBool false)
    else
      let dirname := abspath fs dirname in
      (* The name of the directory is split off and, since the test on
         it was removed, not looked at. *)
      let '(parent, dir) := path_split dirname in
      let '(parent, dir) :=
        if str_eqb dir [] then path_split parent else (parent, dir) in
      names <- listdir fs dirname ;;
      has_init_module fs dirname names
  end.

(** [re.match] raises [TypeError] on a subject that is no string. *)
Definition is_pyname (name : pyval) : result pyval :=
  match name with
  | PyStr s => Ok (re_match_dollar pat_dotted_name s)
  | _ => Raise TypeError
  end.

(** The [for ... else] of [py_src_filename] over the extensions. *)
Fixpoint first_source_file (isfile : str -> bool) (basefile : str)
         (exts : list str) : option str :=
  match exts with
  | [] => None
  | ext :: rest =>
    if isfile (basefile ++ ext) then Some (basefile ++ ext)
    else first_source_file isfile basefile rest
  end.

(** The message of the [ValueError]; [repr] is Python's [%r]. *)
Definition not_found_message (repr : str -> str) (filename : str) : str :=
  py "Could not find a corresponding Python source file for "
  ++ repr filename ++ py ".".

Definition py_src_filename (isfile : str -> bool) (repr : str -> str)
           (filename : str) : result str :=
  let '(basefile, extension) := splitext filename in
  if str_in extension PY_SRC_EXTENSIONS then Ok filename
  else
    match first_source_file isfile basefile PY_SRC_EXTENSIONS with
    | Some found => Ok found
    | None => Raise (ValueError (not_found_message repr filename))
    end.

(** ** Running a subprocess *)

(** [s.split()]: the words between runs of white space. *)
Fixpoint split_words_from (word : str) (s : str) : list str :=
  match s with
  | [] => match word with [] => [] | _ => [word] end
  | c :: t =>
    if isspace c then
      match word with
      | [] => split_words_from [] t
      | _ => word :: split_words_from [] t
      end
    else split_words_from (word ++ [c]) t
  end.

Definition split_words (s : str) : list str := split_words_from [] s.

(** [' '.join(l)] *)
Fixpoint join_blank (l : list str) : str :=
  match l with
  | [] => []
  | [x] => x
  | x :: rest => x ++ SP :: join_blank rest
  end.

(** The command: one string, or the list of its words. *)
Inductive command : Type :=
| CmdString (s : str)
| CmdList (argv : list str).

(** [Popen(cmd, ...)] followed by [pipe.communicate(data)].  [returncode]
    is [None] for a pipe object without that attribute. *)
Inductive popen_outcome : Type :=
| PopenRaises (e : exn)
| CommunicateRaises (e : exn)
| Communicated (out err : str) (returncode : option Z).

(** A child started by [popen2.Popen3]: what writing to it raises, what
    each round of the polling loop reads, the last reads, and the status
    [pipe.wait()] returns. *)
Record popen3_run : Type := {
  p3_write_error : option exn;
  p3_polled : list (str * str);
  p3_last_out : str;
  p3_last_err : str;
  p3_wait : Z
}.

(** A child started by [os.popen3]. *)
Record os_popen3_run : Type := {
  op_write_error : option str;   (* the [IOError] of a broken pipe *)
  op_out : str;
  op_err : str
}.

Record process_env : Type := {
  subprocess_available : bool;
  Popen : list str -> option str -> popen_outcome;
  popen2_available : bool;
  popen2_has_Popen3 : bool;
  Popen3 : str -> option str -> result popen3_run;
  os_popen3 : str -> option str -> result os_popen3_run
}.

(** [raise RunSubprocessError(cmd, out, err)]: the message is built from
    [cmd[0]]. *)
Definition raise_RunSubprocessError {A : Type} (cmd : list str)
           (out err : str) : result A :=
  match cmd with
  | [] => Raise IndexError
  | cmd0 :: _ => Raise (RunSubprocessError (cmd0 ++ py " failed") out err)
  end.

(** [if data:] *)
Definition data_given (data : option str) : bool :=
  match data with
  | Some (_ :: _) => true
  | _ => false
  end.

(** The body of the [try]: Python 2.4 and later. *)
Definition run_with_subprocess (env : process_env) (cmd : list str)
           (data : option str) : result (str * str) :=
  if negb (subprocess_available env) then Raise ImportError
  else
    match Popen env cmd data with
    | PopenRaises e => Raise e
    | CommunicateRaises e => Raise e
    | Communicated out err (Some returncode) =>
      if (returncode =? 0)%Z then Ok (out, err)
      else raise_RunSubprocessError cmd out err
    | Communicated out err None =>
      if str_eqb err [] then Ok (out, err)
      else raise_RunSubprocessError cmd out err
    end.

(** Python 2.3 and earlier on Unix: [popen2.Popen3]. *)
Definition run_with_Popen3 (env : process_env) (cmd : list str)
           (data : option str) : result (str * str) :=
  pipe <- Popen3 env (join_blank cmd) data ;;
  match (if data_given data then p3_write_error pipe else None) with
  | Some e => Raise e
  | None =>
    let out := concat (map fst (p3_polled pipe)) ++ p3_last_out pipe in
    let err := concat (map snd (p3_polled pipe)) ++ p3_last_err pipe in
    if (p3_wait pipe =? 0)%Z then Ok (out, err)
    else raise_RunSubprocessError cmd out err
  end.

(** Python 2.3 and earlier elsewhere: [os.popen3]. *)
Definition run_with_os_popen3 (env : process_env) (cmd : list str)
           (data : option str) : result (str * str) :=
  pipe <- os_popen3 env (join_blank cmd) data ;;
  match (if data_given data then op_write_error pipe else None) with
  | Some e => Raise (OSError e)
  | None =>
    if str_eqb (op_err pipe) [] then Ok (op_out pipe, op_err pipe)
    else raise_RunSubprocessError cmd (op_out pipe) (op_err pipe)
  end.

(** [if isinstance(cmd, six.string_types): cmd = cmd.split()] *)
Definition command_words (cmd : command) : list str :=
  match cmd with
  | CmdString s => split_words s
  | CmdList argv => argv
  end.

Definition run_subprocess (env : process_env) (cmd : command)
           (data : option str) : result (str * str) :=
  let cmd := command_words cmd in
  match run_with_subprocess env cmd data with
  | Raise ImportError =>
    if negb (popen2_available env) then Raise ImportError
    else if popen2_has_Popen3 env then run_with_Popen3 env cmd data
    else run_with_os_popen3 env cmd data
  | r => r
  end.

(** ** Terminal control *)

Module TerminalController.

(** An object's attributes: the name bound last comes first. *)
Definition attrs := list (str * pyval).

Fixpoint lookup (name : str) (d : attrs) : option pyval :=
  match d with
  | [] => None
  | (k, v) :: rest => if str_eqb k name then Some v else lookup name rest
  end.

(** The capability attributes the class body binds to ['']. *)
Definition CAPABILITY_FIELDS : list str :=
  map py ["BOL"; "UP"; "DOWN"; "LEFT"; "RIGHT"; "CLEAR_EOL"; "CLEAR_LINE";
          "BOLD"; "NORMAL"; "UNDERLINE"; "REVERSE";
          "BLACK"; "BLUE"; "GREEN"; "CYAN"; "RED"; "MAGENTA"; "YELLOW";
          "WHITE"]%string.

Definition _STRING_CAPABILITIES : list str :=
  map py ["BOL=cr"; "UP=cuu1"; "DOWN=cud1"; "LEFT=cub1"; "RIGHT=cuf1";
          "REVERSE=rev"; "CLEAR_EOL=el"; "BOLD=bold"; "UNDERLINE=smul";
          "NORMAL=sgr0"]%string.

Definition _COLORS : list str :=
  map py ["BLACK"; "BLUE"; "GREEN"; "CYAN"; "RED"; "MAGENTA"; "YELLOW";
          "WHITE"]%string.

Definition _ANSICOLORS : list str :=
  map py ["BLACK"; "RED"; "GREEN"; "YELLOW"; "BLUE"; "MAGENTA"; "CYAN";
          "WHITE"]%string.

(** The docstring of the class. *)
Definition class_doc : str :=
  NL :: py "    A class that can be used to portably generate formatted output to"
  ++ NL :: py "    a terminal.  See"
  ++ NL :: py "    U{http://aspn.activestate.com/ASPN/Cookbook/Python/Recipe/475116}"
  ++ NL :: py "    for documentation.  (This is a somewhat stripped-down version.)"
  ++ NL :: py "    ".

(** The names the class body binds, its docstring and module among them.
    The other names the interpreter gives every object ([__class__],
    [__dict__] and the like) are not part of the model. *)
Definition class_dict : attrs :=
  map (fun name => (name, PyStr [])) CAPABILITY_FIELDS
  ++ [ (py "__doc__", PyStr class_doc);
       (py "__module__", PyStr (py "epydoc.util"));
       (py "COLS", PyInt 75);
       (py "_STRING_CAPABILITIES", PyStrList _STRING_CAPABILITIES);
       (py "_COLORS", PyStrList _COLORS);
       (py "_ANSICOLORS", PyStrList _ANSICOLORS);
       (py "FORCE_SIMPLE_TERM", PyBool false);
       (py "__init__", PyMethod (py "__init__"));
       (py "_tigetstr", PyMethod (py "_tigetstr"));
       (py "_tparm", PyMethod (py "_tparm"));
       (py "render", PyMethod (py "render"));
       (py "_render_sub", PyMethod (py "_render_sub")) ].

(** [getattr(self, name)]: the instance first, then the class. *)
Definition getattr (self : attrs) (name : str) : result pyval :=
  match lookup name self with
  | Some v => Ok v
  | None =>
    match lookup name class_dict with
    | Some v => Ok v
    | None => Raise (AttributeError name)
    end
  end.

Definition setattr (self : attrs) (name : str) (v : pyval) : attrs :=
  (name, v) :: self.

(** [self.NAME] where the attribute holds a string. *)
Definition str_attr (self : attrs) (name : str) : str :=
  match getattr self name with
  | Ok (PyStr s) => s
  | _ => []
  end.

(** The [curses] module once imported.  The capabilities it gives and
    takes are byte strings. *)
Record curses_module : Type := {
  setupterm : bool;               (* false: [curses.setupterm()] raises *)
  tigetnum : str -> Z;
  tigetstr : str -> option str;   (* [None]: the terminal lacks it *)
  tparm : str -> Z -> result str  (* may raise [curses.error] *)
}.

(** What the constructor finds. *)
Record terminal : Type := {
  isatty : bool;                  (* [term_stream.isatty()] *)
  FORCE_SIMPLE_TERM : bool;
  curses : option curses_module   (* [None]: [import curses] fails *)
}.

(** The delay [\$<\d+>[/*]?]. *)
Definition pat_delay : matcher := fun s =>
  match s with
  | "$"%char :: "<"%char :: t =>
    match span_len isdigit t with
    | O => None
    | S k =>
      match skipn (S k) t with
      | ">"%char :: u =>
        match u with
        | c :: _ =>
          if Ascii.eqb c "/" || Ascii.eqb c "*" then Some (S k + 4)
          else Some (S k + 3)
        | [] => Some (S k + 3)
        end
      | _ => None
      end
    end
  | _ => None
  end.

Definition _tigetstr (c : curses_module) (cap_name : str) : result str :=
  (* cap = curses.tigetstr(cap_name) or six.b('') *)
  let cap := match tigetstr c cap_name with Some s => s | None => [] end in
  (* cap = re.sub(six.b(r'\$<\d+>[/*]?'), six.b(''), cap) *)
  cap <- re_sub pat_delay (fun _ => Ok []) cap ;;
  (* if six.binary_type is not str: cap = cap.decode('ascii') *)
  decode_ascii_text cap.

Definition _tparm (c : curses_module) (s : str) (i : Z) : result str :=
  (* if six.binary_type is not str: s = s.encode('ascii') *)
  s <- encode_ascii s ;;
  s <- tparm c s i ;;
  (* if six.binary_type is not str: s = s.decode('ascii') *)
  decode_ascii_text s.

(** [capability.split('=')] for a capability [ATTRIB=cap_name]. *)
Definition split_capability (capability : str) : str * str :=
  let n := span_len (fun c => negb (Ascii.eqb c "=")) capability in
  (firstn n capability, skipn (S n) capability).

(** [for capability in self._STRING_CAPABILITIES: setattr(...)], over the
    capabilities that remain; an exception of [_tigetstr] ends the loop. *)
Fixpoint set_string_capabilities (c : curses_module)
         (capabilities : list str) (self : attrs) : result attrs :=
  match capabilities with
  | [] => Ok self
  | capability :: rest =>
    let '(attrib, cap_name) := split_capability capability in
    cap <- _tigetstr c cap_name ;;
    set_string_capabilities c rest (setattr self attrib (PyStr cap))
  end.

(** [zip(range(len(colors)), colors)] *)
Definition numbered (colors : list str) : list (nat * str) :=
  combine (seq 0 (length colors)) colors.

(** [for i, color in zip(...): setattr(self, color, self._tparm(set_fg, i)
    or '')], over the colours that remain. *)
Fixpoint set_colors (c : curses_module) (set_fg : str)
         (colors : list (nat * str)) (self : attrs) : result attrs :=
  match colors with
  | [] => Ok self
  | (i, color) :: rest =>
    s <- _tparm c set_fg (Z.of_nat i) ;;
    set_colors c set_fg rest (setattr self color (PyStr s))
  end.

(** The constructor: the attributes it leaves on the instance, or the
    exception that leaves it. *)
Definition __init__ (t : terminal) : result attrs :=
  let self : attrs := [] in
  if negb (isatty t) then Ok self
  else if FORCE_SIMPLE_TERM t then Ok self
  else
    match curses t with
    | None =>
      let self := setattr self (py "BOL") (PyStr [CR]) in
      let self :=
        setattr self (py "CLEAR_LINE") (PyStr (CR :: spaces 75 ++ [CR])) in
      Ok self                     (* [curses.setupterm()] fails: return *)
    | Some c =>
      if negb (setupterm c) then Ok self
      else
        let self := setattr self (py "COLS") (PyInt (tigetnum c (py "cols"))) in
        self <- set_string_capabilities c _STRING_CAPABILITIES self ;;
        let self :=
          match str_attr self (py "BOL"), str_attr self (py "CLEAR_EOL") with
          | _ :: _, _ :: _ =>
            setattr self (py "CLEAR_LINE")
              (PyStr (str_attr self (py "BOL")
                      ++ str_attr self (py "CLEAR_EOL")))
          | _, _ => self
          end in
        set_fg <- _tigetstr c (py "setf") ;;
        self <-
          match set_fg with
          | _ :: _ => set_colors c set_fg (numbered _COLORS) self
          | [] => Ok self
          end ;;
        set_fg_ansi <- _tigetstr c (py "setaf") ;;
        self <-
          match set_fg_ansi with
          | _ :: _ => set_colors c set_fg_ansi (numbered _ANSICOLORS) self
          | [] => Ok self
          end ;;
        Ok self
    end.

(** The substitutions [\$\$|\${\w+}]. *)
Definition pat_substitution : matcher := fun s =>
  match s with
  | "$"%char :: "$"%char :: _ => Some 2
  | "$"%char :: "{"%char :: t =>
    match span_len is_word t with
    | O => None
    | S k =>
      match skipn (S k) t with
      | "}"%char :: _ => Some (S k + 3)
      | _ => None
      end
    end
  | _ => None
  end.

(** [s[2:-1]] *)
Definition inner_name (s : str) : str := removelast (skipn 2 s).

Definition _render_sub (self : attrs) (s : str) : result pyval :=
  if str_eqb s (py "$$") then Ok (PyStr s)
  else getattr self (inner_name s).

Definition render (self : attrs) (template : str) : result str :=
  re_sub_function pat_substitution (_render_sub self) template.

End TerminalController.

(** ** More text processing *)

(** A pattern that is one character of a class: [\W], [.], [[...]]. *)
Definition char_class (p : ascii -> bool) : matcher := fun s =>
  match s with
  | c :: _ => if p c then Some 1 else None
  | [] => None
  end.

(** [re.sub(P, repl, s)] where [repl] rewrites the match and cannot
    raise: a template such as [r'\\\1'], or a constant. *)
Definition re_sub_with (m : matcher) (repl : str -> str) (s : str) : str :=
  match re_sub m (fun matched => Ok (repl matched)) s with
  | Ok r => r
  | Raise _ => s
  end.

(** [\W] *)
Definition pat_nonword : matcher := char_class (fun c => negb (is_word c)).

Definition munge_script_name (filename : str) : str :=
  let name := snd (path_split filename) in
  let name := re_sub_with pat_nonword (fun _ => py "_") name in
  py "script-" ++ name.

(** Code points, as [bytes.decode] gives them and [str.encode] takes
    them. *)
Definition codepoints := list nat.

(** [s.decode('latin1')]: each byte is its own code point. *)
Definition decode_latin1 (s : str) : codepoints := map nat_of_ascii s.

Definition hex_digit (n : nat) : ascii :=
  nth n (py "0123456789abcdef") "0"%char.

(** The last [width] hexadecimal digits of [n]. *)
Fixpoint hex (width n : nat) : str :=
  match width with
  | O => []
  | S w => hex w (n / 16) ++ [hex_digit (n mod 16)]
  end.

(** What the error handler [backslashreplace] writes for a code point
    that ASCII cannot hold. *)
Definition backslash_escape (cp : nat) : str :=
  if cp <? 256 then py "\x" ++ hex 2 cp
  else if cp <? 256 * 256 then py "\u" ++ hex 4 cp
  else py "\U" ++ hex 8 cp.

(** [u.encode('ascii', 'backslashreplace')] *)
Definition encode_ascii_backslashreplace (u : codepoints) : str :=
  flat_map (fun cp => if cp <? 128 then [ascii_of_nat cp]
                      else backslash_escape cp) u.

(** [s.decode('ascii')]: [None] stands for the [UnicodeDecodeError] a
    byte above 127 raises. *)
Fixpoint decode_ascii (s : str) : option codepoints :=
  match s with
  | [] => Some []
  | c :: t =>
    if nat_of_ascii c <? 128 then
      match decode_ascii t with
      | Some u => Some (nat_of_ascii c :: u)
      | None => None
      end
    else None
  end.

(** The argument is a byte string (the [assert]); the result is the text
    the last [decode] gives, [None] if it raised. *)
Definition decode_with_backslashreplace (s : str) : option codepoints :=
  decode_ascii (encode_ascii_backslashreplace (decode_latin1 s)).

Definition NUL : ascii := "000"%char.
Definition SOH : ascii := "001"%char.
Definition BACKSLASH : ascii := "\"%char.

(** [(.)]: any character but a newline. *)
Definition pat_dot : matcher := char_class (fun c => negb (Ascii.eqb c NL)).

(** [([#$&%_\${}])] *)
Definition pat_latex_special : matcher :=
  char_class (fun c => mem c (py "#$&%_${}")).

(** [if x:] for an integer flag. *)
Definition flag (x : Z) : bool := negb (x =? 0)%Z.

Definition plaintext_to_latex (s : str) (nbsp breakany : Z) : str :=
  (* These get converted to hyphenation points later *)
  let s := if flag breakany
           then re_sub_with pat_dot (fun m => m ++ [SOH]) s else s in
  (* These get converted to \textbackslash later. *)
  let s := replace BACKSLASH [NUL] s in
  (* Expand tabs *)
  let s := expandtabs s in
  (* These elements need to be backslashed. *)
  let s := re_sub_with pat_latex_special (fun m => BACKSLASH :: m) s in
  (* These elements have special names. *)
  let s := replace "|" (py "{\textbar}") s in
  let s := replace "<" (py "{\textless}") s in
  let s := replace ">" (py "{\textgreater}") s in
  let s := replace "^" (py "{\textasciicircum}") s in
  let s := replace "~" (py "{\textasciitilde}") s in
  let s := replace NUL (py "{\textbackslash}") s in
  (* replace spaces with non-breaking spaces *)
  let s := if flag nbsp then replace SP (py "~") s else s in
  (* Convert \1's to hyphenation points. *)
  let s := if flag breakany then replace SOH (py "\-") s else s in
  s.

(** ** Vocabulary of the statements *)

(** A matcher that consumes at least one character where it matches, and
    no more than the subject has. *)
Definition progresses (m : matcher) : Prop :=
  forall s n, m s = Some n -> 1 <= n <= length s.

(** Characters the classes of Python 3 tell apart from those of ASCII: a
    letter and a digit of [\w], and two characters of white space. *)
Definition E_ACUTE : ascii := "233"%char.
Definition SUPERSCRIPT_TWO : ascii := "178"%char.
Definition NBSP : ascii := "160"%char.          (* the no-break space *)
Definition US : ascii := "031"%char.            (* the unit separator *)

(** The entity that stands for a character in HTML, or the character. *)
Definition html_escape_char (c : ascii) : str :=
  if Ascii.eqb c "&" then py "&amp;"
  else if Ascii.eqb c DQUOTE then py "&quot;"
  else if Ascii.eqb c "<" then py "&lt;"
  else if Ascii.eqb c ">" then py "&gt;"
  else [c].

(** The sample text [<a & "b">]. *)
Definition html_sample : str :=
  py "<a & " ++ [DQUOTE] ++ py "b" ++ [DQUOTE] ++ py ">".

(** A line made of the indentation and one chunk of the input, whole or
    with its trailing white space stripped (the last line of the output). *)
Definition single_chunk_line (chunks : list str) (indent : Z) (l : str)
  : Prop :=
  exists chunk, In chunk chunks /\
    (l = spaces indent ++ chunk \/ l = rstrip (spaces indent ++ chunk)).

(** What [wordwrap] achieves for a line: it fits within the margin, or it
    is a single chunk behind the indentation. *)
Definition fine_line (right indent : Z) (chunks : list str) (l : str)
  : Prop :=
  (len l <= right)%Z \/ single_chunk_line chunks indent l.

(** A line [wordwrap] leaves alone when it starts in column 0: it fits
    within the margin, or it holds no blank to break at. *)
Definition settled_line (right : Z) (l : str) : Prop :=
  (len l <= right)%Z \/ mem SP l = false.

(** The chunks trigger no line break but at the newlines, from column
    [col] on: the condition of the loop, chunk by chunk. *)
Fixpoint no_break (right : Z) (col : Z) (chunks : list str) : Prop :=
  match chunks with
  | [] => True
  | chunk :: rest =>
    if str_eqb chunk [NL] then no_break right 0%Z rest
    else ((col + len chunk <= right)%Z \/ (col <= 0)%Z)
         /\ no_break right (col + len chunk)%Z rest
  end.

(** [s] begins with a substitution of [render]: [$$], or [${NAME}] for a
    name of word characters. *)
Definition starts_substitution (s : str) : Prop :=
  (exists t, s = py "$$" ++ t)
  \/ (exists name t, name <> [] /\ forallb is_word name = true
                     /\ s = py "${" ++ name ++ py "}" ++ t).

(** Every attribute set on the instance holds a string, [COLS] apart. *)
Definition strings_but_cols (self : TerminalController.attrs) : Prop :=
  forall k v, In (k, v) self -> (exists s, v = PyStr s) \/ k = py "COLS".

(** A file system with no file at all, and a [repr] for plain names. *)
Definition empty_fs : filesystem :=
  {| isfile := fun _ => false;
     isdir := fun _ => false;
     path_exists := fun _ => false;
     listdir := fun _ => Raise (OSError (py "No such file or directory"));
     abspath := fun p => p |}.

Definition quote_repr (s : str) : str := py "'" ++ s ++ py "'".

(** A host where [subprocess] is there and the program is not. *)
Definition env_no_such_program : process_env :=
  {| subprocess_available := true;
     Popen := fun _ _ =>
       PopenRaises (OSError (py "[Errno 2] No such file or directory"));
     popen2_available := false;
     popen2_has_Popen3 := false;
     Popen3 := fun _ _ => Raise ImportError;
     os_popen3 := fun _ _ => Raise ImportError |}.

(** A host where [false] runs and exits with status 1. *)
Definition env_false_exits_1 : process_env :=
  {| subprocess_available := true;
     Popen := fun _ _ => Communicated [] [] (Some 1%Z);
     popen2_available := false;
     popen2_has_Popen3 := false;
     Popen3 := fun _ _ => Raise ImportError;
     os_popen3 := fun _ _ => Raise ImportError |}.

(** A terminal data base that knows bold, normal (with a delay), the
    cursor return and the clearing of a line, and 80 columns. *)
Definition ESC : ascii := "027"%char.

Definition sample_curses : TerminalController.curses_module :=
  {| TerminalController.setupterm := true;
     TerminalController.tigetnum := fun _ => 80%Z;
     TerminalController.tigetstr := fun cap_name =>
       if str_eqb cap_name (py "bold") then Some (ESC :: py "[1m")
       else if str_eqb cap_name (py "sgr0") then Some (ESC :: py "[m$<2>")
       else if str_eqb cap_name (py "cr") then Some [CR]
       else if str_eqb cap_name (py "el") then Some (ESC :: py "[K")
       else None;
     TerminalController.tparm := fun s _ => Ok s |}.

(** A stream that is a terminal, and one that is none (a pipe), on a
    host with that data base. *)
Definition a_tty : TerminalController.terminal :=
  {| TerminalController.isatty := true;
     TerminalController.FORCE_SIMPLE_TERM := false;
     TerminalController.curses := Some sample_curses |}.

Definition not_a_tty : TerminalController.terminal :=
  {| TerminalController.isatty := false;
     TerminalController.FORCE_SIMPLE_TERM := false;
     TerminalController.curses := Some sample_curses |}.

(** The character [munge_script_name] writes for a character. *)
Definition munge_char (c : ascii) : ascii :=
  if is_word c then c else "_"%char.

(** The code points [decode_with_backslashreplace] writes for a byte. *)
Definition backslashreplace_byte (c : ascii) : codepoints :=
  if nat_of_ascii c <? 128 then [nat_of_ascii c]
  else decode_latin1 (py "\x" ++ hex 2 (nat_of_ascii c)).

(** What LaTeX reads as the character [c]. *)
Definition latex_escape_char (c : ascii) : str :=
  if Ascii.eqb c BACKSLASH || Ascii.eqb c NUL then py "{\textbackslash}"
  else if mem c (py "#$&%_{}") then [BACKSLASH; c]
  else if Ascii.eqb c "|" then py "{\textbar}"
  else if Ascii.eqb c "<" then py "{\textless}"
  else if Ascii.eqb c ">" then py "{\textgreater}"
  else if Ascii.eqb c "^" then py "{\textasciicircum}"
  else if Ascii.eqb c "~" then py "{\textasciitilde}"
  else [c].

(** The same with the two options: a blank becomes a tie, and every
    character but the newline is followed by a hyphenation point (the
    character [\1] being one itself). *)
Definition latex_char (nbsp breakany : bool) (c : ascii) : str :=
  (if nbsp && Ascii.eqb c SP then py "~"
   else if breakany && Ascii.eqb c SOH then py "\-"
   else latex_escape_char c)
  ++ (if breakany && negb (Ascii.eqb c NL) then py "\-" else []).

(** The characters of a text that are no white space, in order. *)
Definition nonspace (s : str) : str :=
  filter (fun c => negb (isspace c)) s.

(** A file system that holds the one file [pkg/mod.py]. *)
Definition one_source_fs : filesystem :=
  {| isfile := fun p => str_eqb p (py "pkg/mod.py");
     isdir := fun p => str_eqb p (py "pkg");
     path_exists := fun p => str_eqb p (py "pkg/mod.py")
                             || str_eqb p (py "pkg");
     listdir := fun p => if str_eqb p (py "pkg") then Ok [py "mod.py"]
                         else Raise (OSError (py "Not a directory"));
     abspath := fun p => p |}.

(** A name: one word character or more. *)
Definition is_name (w : str) : Prop :=
  w <> [] /\ forallb is_word w = true.

(** ['.'.join(ws)] *)
Fixpoint join_dots (ws : list str) : str :=
  match ws with
  | [] => []
  | w :: rest =>
    match rest with
    | [] => w
    | _ :: _ => w ++ "."%char :: join_dots rest
    end
  end.

(** A dotted name: names with one dot between each two. *)
Definition dotted_name (s : str) : Prop :=
  exists ws, ws <> [] /\ Forall is_name ws /\ s = join_dots ws.

(** The files that make a directory a package. *)
Definition INIT_MODULE_NAMES : list str :=
  map py ["__init__.py"; "__init__.pyw"; "__init__.pyc"; "__init__.so";
          "__init__.pyd"]%string.

(** [path] names a file that exists, its last component is an identifier
    (a newline may follow it) and its extension a source or binary one. *)
Definition module_file_test (fs : filesystem) (path : str) : bool :=
  let name := snd (path_split path) in
  isfile fs path
  && truthy (re_match_dollar pat_identifier (fst (splitext name)))
  && str_in (snd (splitext name)) (PY_SRC_EXTENSIONS ++ PY_BIN_EXTENSIONS).

(** A directory [pkg] with a module and a compiled [__init__]. *)
Definition package_fs : filesystem :=
  {| isfile := fun p => str_eqb p (py "pkg/mod.py")
                        || str_eqb p (py "pkg/__init__.pyc");
     isdir := fun p => str_eqb p (py "pkg");
     path_exists := fun _ => true;
     listdir := fun p => if str_eqb p (py "pkg")
                         then Ok [py "mod.py"; py "__init__.pyc"]
                         else Raise (OSError (py "Not a directory"));
     abspath := fun p => p |}.

(** A line that starts with the indentation. *)
Definition indented (indent : Z) (l : str) : Prop :=
  exists rest, l = spaces indent ++ rest.






(** A terminal data base whose [el] is the 8-bit control sequence
    [CSI K], and a terminal on it. *)
Definition CSI : ascii := "155"%char.

Definition eight_bit_curses : TerminalController.curses_module :=
  {| TerminalController.setupterm := true;
     TerminalController.tigetnum := fun _ => 80%Z;
     TerminalController.tigetstr := fun cap_name =>
       if str_eqb cap_name (py "el") then Some (CSI :: py "K") else None;
     TerminalController.tparm := fun s _ => Ok s |}.


(* ================================================================== *)
(** * Part II: properties *)
(* ================================================================== *)

(** ** Strings *)

Lemma str_eqb_eq (a b : str) : str_eqb a b = true <-> a = b.
Proof.
  unfold str_eqb. destruct (list_eq_dec ascii_dec a b); split; congruence.
Qed.

Lemma str_eqb_neq (a b : str) : str_eqb a b = false <-> a <> b.
Proof.
  unfold str_eqb. destruct (list_eq_dec ascii_dec a b); split; congruence.
Qed.

Lemma str_eqb_refl (a : str) : str_eqb a a = true.
Proof. now apply str_eqb_eq. Qed.

Lemma str_in_In (x : str) (l : list str) : str_in x l = true <-> In x l.
Proof.
  unfold str_in. rewrite existsb_exists. split.
  - intros [y [Hy E]]. apply str_eqb_eq in E. now subst.
  - intros H. exists x. split; [assumption | apply str_eqb_refl].
Qed.

Lemma str_in_not_In (x : str) (l : list str) :
  str_in x l = false <-> ~ In x l.
Proof.
  rewrite <- str_in_In. destruct (str_in x l); split; congruence.
Qed.

Lemma replace_app (old : ascii) (new a b : str) :
  replace old new (a ++ b) = replace old new a ++ replace old new b.
Proof.
  induction a as [|c a IH]; simpl; [reflexivity|].
  destruct (Ascii.eqb c old); rewrite IH.
  - now rewrite app_assoc.
  - reflexivity.
Qed.

Lemma skipn_length_le {A : Type} (n : nat) (l : list A) :
  length (skipn n l) <= length l.
Proof. rewrite length_skipn. lia. Qed.

Lemma span_len_le (p : ascii -> bool) (s : str) : span_len p s <= length s.
Proof.
  induction s as [|c t IH]; simpl; [lia|]. destruct (p c); simpl; lia.
Qed.

(** A run of [p]-characters followed by a character outside [p]. *)
Lemma span_len_app_stop (p : ascii -> bool) (a : str) (c : ascii) (b : str) :
  forallb p a = true -> p c = false -> span_len p (a ++ c :: b) = length a.
Proof.
  intros Ha Hc. induction a as [|x a IH]; simpl in *.
  - now rewrite Hc.
  - apply andb_true_iff in Ha as [Hx Ha]. rewrite Hx. now rewrite IH.
Qed.

Lemma span_len_forallb (p : ascii -> bool) (s : str) :
  forallb p (firstn (span_len p s) s) = true.
Proof.
  induction s as [|c t IH]; simpl; [reflexivity|].
  destruct (p c) eqn:E; simpl; [now rewrite E | reflexivity].
Qed.

Lemma skipn_app_exact {A : Type} (a b : list A) : skipn (length a) (a ++ b) = b.
Proof. induction a; simpl; auto. Qed.

Lemma firstn_app_exact {A : Type} (a b : list A) :
  firstn (length a) (a ++ b) = a.
Proof. induction a; simpl; [reflexivity | now f_equal]. Qed.

(** ** White space and [rstrip] *)

Lemma dropwhile_snoc (p : ascii -> bool) (l : str) (c : ascii) :
  dropwhile p (l ++ [c]) =
  match dropwhile p l with
  | [] => if p c then [] else [c]
  | r => r ++ [c]
  end.
Proof.
  induction l as [|x l IH]; simpl; [reflexivity|].
  destruct (p x); [exact IH | reflexivity].
Qed.

Lemma rstrip_cons (c : ascii) (t : str) :
  rstrip (c :: t) =
  match rstrip t with
  | [] => if isspace c then [] else [c]
  | r => c :: r
  end.
Proof.
  unfold rstrip. cbn [rev]. rewrite dropwhile_snoc.
  destruct (dropwhile isspace (rev t)) as [|x r].
  - simpl. destruct (isspace c); reflexivity.
  - rewrite rev_app_distr. cbn [rev app].
    destruct (rev r ++ [x]) eqn:E; [|reflexivity].
    now apply app_eq_nil in E as [_ E].
Qed.

Lemma dropwhile_all (p : ascii -> bool) (s : str) :
  forallb p s = true -> dropwhile p s = [].
Proof.
  induction s as [|c t IH]; simpl; [reflexivity|].
  intros H. apply andb_true_iff in H as [Hc Ht]. rewrite Hc. now apply IH.
Qed.

Lemma dropwhile_head (p : ascii -> bool) (s : str) (x : ascii) (r : str) :
  dropwhile p s = x :: r -> p x = false.
Proof.
  induction s as [|c t IH]; simpl; [discriminate|].
  destruct (p c) eqn:E; [exact IH|]. intros [= -> _]. exact E.
Qed.

Lemma dropwhile_length (p : ascii -> bool) (s : str) :
  length (dropwhile p s) <= length s.
Proof.
  induction s as [|c t IH]; simpl; [lia|]. destruct (p c); simpl; lia.
Qed.

Lemma forallb_rev (p : ascii -> bool) (s : str) :
  forallb p (rev s) = forallb p s.
Proof.
  induction s as [|c t IH]; [reflexivity|].
  cbn [rev]. rewrite forallb_app, IH. simpl. rewrite andb_true_r.
  apply andb_comm.
Qed.

Lemma rstrip_blank (s : str) : forallb isspace s = true -> rstrip s = [].
Proof.
  intros H. unfold rstrip. rewrite dropwhile_all; [reflexivity|].
  now rewrite forallb_rev.
Qed.

(** What [rstrip] returns does not end in white space. *)
Lemma rstrip_last (s b : str) (c : ascii) :
  rstrip s = b ++ [c] -> isspace c = false.
Proof.
  unfold rstrip. intros H.
  destruct (dropwhile isspace (rev s)) as [|x r] eqn:E.
  - now destruct b.
  - cbn [rev] in H. apply app_inj_tail in H as [_ <-].
    exact (dropwhile_head _ _ _ _ E).
Qed.

Lemma rstrip_length (s : str) : length (rstrip s) <= length s.
Proof.
  unfold rstrip. rewrite length_rev.
  pose proof (dropwhile_length isspace (rev s)) as H.
  now rewrite length_rev in H.
Qed.

Lemma rstrip_snoc_space (s : str) (c : ascii) :
  isspace c = true -> rstrip (s ++ [c]) = rstrip s.
Proof.
  intros H. unfold rstrip. rewrite rev_app_distr. simpl. now rewrite H.
Qed.

Lemma rstrip_idempotent (s : str) : rstrip (rstrip s) = rstrip s.
Proof.
  unfold rstrip. rewrite rev_involutive.
  destruct (dropwhile isspace (rev s)) as [|x r] eqn:E; [reflexivity|].
  simpl. now rewrite (dropwhile_head _ _ _ _ E).
Qed.

Lemma spaces_blank (n : Z) : forallb isspace (spaces n) = true.
Proof.
  unfold spaces. induction (Z.to_nat n) as [|k IH]; simpl; auto.
Qed.

Lemma len_spaces (n : Z) : (0 <= n)%Z -> len (spaces n) = n.
Proof.
  intros H. unfold len, spaces. rewrite repeat_length. lia.
Qed.

Lemma len_app (a b : str) : len (a ++ b) = (len a + len b)%Z.
Proof. unfold len. rewrite length_app. lia. Qed.

Lemma len_nonneg (a : str) : (0 <= len a)%Z.
Proof. unfold len. lia. Qed.

Lemma mem_app (c : ascii) (a b : str) : mem c (a ++ b) = mem c a || mem c b.
Proof. unfold mem. apply existsb_app. Qed.

Lemma mem_spaces_NL (n : Z) : mem NL (spaces n) = false.
Proof.
  unfold spaces. induction (Z.to_nat n) as [|k IH]; simpl; auto.
Qed.

(** ** Lines *)

Lemma lines_nonempty (s : str) : lines s <> [].
Proof.
  destruct s as [|c t]; simpl; [discriminate|].
  destruct (Ascii.eqb c NL); [discriminate|].
  destruct (lines t); discriminate.
Qed.

Lemma lines_cons_NL (t : str) : lines (NL :: t) = [] :: lines t.
Proof. reflexivity. Qed.

Lemma lines_cons_other (c : ascii) (t : str) :
  Ascii.eqb c NL = false ->
  exists l ls, lines t = l :: ls /\ lines (c :: t) = (c :: l) :: ls.
Proof.
  intros H. cbn [lines]. rewrite H.
  destruct (lines t) as [|l ls] eqn:E; [now apply lines_nonempty in E|].
  now exists l, ls.
Qed.

Lemma lines_single (s : str) : mem NL s = false -> lines s = [s].
Proof.
  induction s as [|c t IH]; [reflexivity|].
  cbn [mem existsb]. rewrite Ascii.eqb_sym. intros H.
  apply orb_false_iff in H as [Hc Ht]. cbn [lines]. rewrite Hc.
  unfold mem in IH. now rewrite (IH Ht).
Qed.

Lemma lines_single_nil (s : str) : lines s = [[]] -> s = [].
Proof.
  destruct s as [|c t]; [reflexivity|]. cbn [lines].
  destruct (Ascii.eqb c NL).
  - intros [= H]. now apply lines_nonempty in H.
  - destruct (lines t); discriminate.
Qed.

(** The lines of a concatenation: the last line of the first part goes on
    with the first line of the second. *)
Lemma lines_app (a b : str) :
  lines (a ++ b)
  = removelast (lines a) ++ (last (lines a) [] ++ hd [] (lines b))
                            :: tl (lines b).
Proof.
  induction a as [|x a IH].
  - simpl. destruct (lines b) eqn:E; [now apply lines_nonempty in E|].
    reflexivity.
  - cbn [app lines]. destruct (Ascii.eqb x NL).
    + rewrite IH. pose proof (lines_nonempty a) as Hne.
      destruct (lines a) as [|l ls]; [congruence|]. reflexivity.
    + rewrite IH. pose proof (lines_nonempty a) as Hne.
      destruct (lines a) as [|l ls]; [congruence|].
      destruct ls as [|l' ls]; reflexivity.
Qed.

Lemma lines_snoc_chunk (j chunk : str) (done : list str) (cur : str) :
  lines j = done ++ [cur] -> mem NL chunk = false ->
  lines (j ++ chunk) = done ++ [cur ++ chunk].
Proof.
  intros Hj Hc. rewrite lines_app, Hj, removelast_last, last_last.
  now rewrite (lines_single chunk Hc).
Qed.

Lemma lines_snoc_break (j sp : str) (done : list str) (cur : str) :
  lines j = done ++ [cur] -> mem NL sp = false ->
  lines (j ++ NL :: sp) = (done ++ [cur]) ++ [sp].
Proof.
  intros Hj Hs. rewrite lines_app, Hj, removelast_last, last_last.
  rewrite lines_cons_NL, (lines_single sp Hs). cbn [hd tl].
  now rewrite app_nil_r, <- app_assoc.
Qed.

Lemma lines_snoc_NL (j : str) : lines (j ++ [NL]) = lines j ++ [[]].
Proof.
  rewrite lines_app. change (lines [NL]) with ([[]; []] : list str).
  cbn [hd tl]. rewrite app_nil_r.
  change (last (lines j) [] :: [[]]) with ([last (lines j) []] ++ [[]]).
  rewrite app_assoc. f_equal. symmetry.
  apply app_removelast_last. apply lines_nonempty.
Qed.

(** Stripping a text strips one of its lines and drops those after it. *)
Lemma lines_rstrip (j : str) :
  exists pre l post,
    lines j = pre ++ l :: post /\ lines (rstrip j) = pre ++ [rstrip l].
Proof.
  induction j as [|c t (pre & l & post & Ht & Hr)].
  - now exists [], [], [].
  - rewrite rstrip_cons. destruct (rstrip t) as [|y r] eqn:Er.
    + destruct pre as [|p pre]; [|destruct pre; discriminate Hr].
      cbn [app] in *. injection Hr as Hl.
      destruct (Ascii.eqb c NL) eqn:Ec.
      * apply Ascii.eqb_eq in Ec. subst c. exists [], [], (lines t).
        split; reflexivity.
      * destruct (lines_cons_other c t Ec) as (l0 & ls & E1 & E2).
        rewrite Ht in E1. injection E1 as <- <-.
        exists [], (c :: l), post. rewrite E2, rstrip_cons, <- Hl.
        split; [reflexivity|].
        destruct (isspace c); [reflexivity|]. cbn [lines]. now rewrite Ec.
    + destruct (Ascii.eqb c NL) eqn:Ec.
      * apply Ascii.eqb_eq in Ec. subst c. exists ([] :: pre), l, post.
        rewrite !lines_cons_NL, Ht, Hr. split; reflexivity.
      * destruct (lines_cons_other c t Ec) as (l0 & ls & E1 & E2).
        destruct (lines_cons_other c (y :: r) Ec) as (l1 & ls1 & E3 & E4).
        rewrite E2, E4. rewrite Ht in E1. rewrite Hr in E3.
        destruct pre as [|p pre]; cbn [app] in *.
        -- injection E1 as <- <-. injection E3 as <- <-.
           exists [], (c :: l), post. split; [reflexivity|].
           rewrite rstrip_cons. destruct (rstrip l) eqn:El; [|reflexivity].
           now apply lines_single_nil in Hr.
        -- injection E1 as <- <-. injection E3 as <- <-.
           exists ((c :: p) :: pre), l, post. split; reflexivity.
Qed.

(** ** [re.sub] *)

(** Any fuel that covers the subject gives the same substitution. *)
Lemma re_sub_from_fuel (m : matcher) (repl : str -> result str) :
  progresses m ->
  forall f1 f2 s, length s <= f1 -> length s <= f2 ->
                  re_sub_from m repl f1 s = re_sub_from m repl f2 s.
Proof.
  intros Hm. induction f1 as [|f1 IH]; intros f2 s H1 H2.
  - destruct s; [|simpl in H1; lia]. destruct f2; reflexivity.
  - destruct f2 as [|f2].
    + destruct s; [reflexivity | simpl in H2; lia].
    + destruct s as [|c t]; [reflexivity|]. simpl in H1, H2.
      cbn [re_sub_from]. destruct (m (c :: t)) as [n|] eqn:E.
      * apply Hm in E. destruct n as [|n]; [lia|].
        cbn [skipn]. pose proof (skipn_length_le n t).
        rewrite (IH f2 (skipn n t)) by lia. reflexivity.
      * rewrite (IH f2 t) by lia. reflexivity.
Qed.

Lemma re_sub_cons_none (m : matcher) (repl : str -> result str)
      (c : ascii) (t : str) :
  m (c :: t) = None ->
  re_sub m repl (c :: t) = (rest <- re_sub m repl t ;; Ok (c :: rest)).
Proof. intros E. unfold re_sub. cbn [length re_sub_from]. now rewrite E. Qed.

Lemma re_sub_match (m : matcher) (repl : str -> result str)
      (s : str) (n : nat) :
  progresses m -> m s = Some n ->
  re_sub m repl s =
  (r <- repl (firstn n s) ;; rest <- re_sub m repl (skipn n s) ;;
   Ok (r ++ rest)).
Proof.
  intros Hm E. unfold re_sub. destruct s as [|c t].
  - apply Hm in E. simpl in E. lia.
  - cbn [length re_sub_from]. rewrite E.
    pose proof (Hm _ _ E) as Hn. destruct n as [|n]; [lia|].
    pose proof (skipn_length_le n t). cbn [skipn] in *.
    rewrite (@re_sub_from_fuel m repl Hm (length t) (length (skipn n t)))
      by lia.
    reflexivity.
Qed.

Lemma re_sub_pieces_fuel (m : matcher) (f : str -> result pyval) :
  progresses m ->
  forall f1 f2 s, length s <= f1 -> length s <= f2 ->
                  re_sub_pieces m f f1 s = re_sub_pieces m f f2 s.
Proof.
  intros Hm. induction f1 as [|f1 IH]; intros f2 s H1 H2.
  - destruct s; [|simpl in H1; lia]. destruct f2; reflexivity.
  - destruct f2 as [|f2].
    + destruct s; [reflexivity | simpl in H2; lia].
    + destruct s as [|c t]; [reflexivity|]. simpl in H1, H2.
      cbn [re_sub_pieces]. destruct (m (c :: t)) as [n|] eqn:E.
      * apply Hm in E. destruct n as [|n]; [lia|].
        cbn [skipn]. pose proof (skipn_length_le n t).
        rewrite (IH f2 (skipn n t)) by lia. reflexivity.
      * rewrite (IH f2 t) by lia. reflexivity.
Qed.

(** The join raises nothing but [TypeError]. *)
Lemma join_pieces_raises (pieces : list pyval) (e : exn) :
  join_pieces pieces = Raise e -> e = TypeError.
Proof.
  induction pieces as [|v rest IH]; cbn [join_pieces]; [discriminate|].
  destruct v; try (intros H; congruence).
  - exact IH.
  - destruct (join_pieces rest) as [tail|e']; cbn [bind]; [discriminate|].
    intros H. assert (e' = e) by congruence. subst e'. now apply IH.
Qed.

Lemma re_sub_function_cons_none (m : matcher) (f : str -> result pyval)
      (c : ascii) (t : str) :
  m (c :: t) = None ->
  re_sub_function m f (c :: t)
  = (rest <- re_sub_function m f t ;; Ok (c :: rest)).
Proof.
  intros E. unfold re_sub_function. cbn [length re_sub_pieces]. rewrite E.
  destruct (re_sub_pieces m f (length t) t) as [pieces|e]; [|reflexivity].
  cbn [bind join_pieces]. destruct (join_pieces pieces); reflexivity.
Qed.

(** What a match contributes: the function is called, the rest of the
    subject is read, and only then is the value looked at. *)
Lemma re_sub_function_match (m : matcher) (f : str -> result pyval)
      (s : str) (n : nat) :
  progresses m -> m s = Some n ->
  re_sub_function m f s =
  (v <- f (firstn n s) ;; rest <- re_sub_function m f (skipn n s) ;;
   match v with
   | PyStr r => Ok (r ++ rest)
   | PyNone => Ok rest
   | _ => Raise TypeError
   end).
Proof.
  intros Hm E. unfold re_sub_function. destruct s as [|c t].
  - apply Hm in E. simpl in E. lia.
  - cbn [length re_sub_pieces]. rewrite E.
    pose proof (Hm _ _ E) as Hn. destruct n as [|n]; [lia|].
    pose proof (skipn_length_le n t). cbn [skipn] in *.
    rewrite (@re_sub_pieces_fuel m f Hm (length t) (length (skipn n t)))
      by lia.
    destruct (f (firstn (S n) (c :: t))) as [v|e]; [|reflexivity].
    cbn [bind].
    destruct (re_sub_pieces m f (length (skipn n t)) (skipn n t))
      as [pieces|e]; [|reflexivity].
    cbn [bind join_pieces].
    destruct (join_pieces pieces) as [rest|e'] eqn:Ej.
    + destruct v; reflexivity.
    + apply join_pieces_raises in Ej. subst e'. destruct v; reflexivity.
Qed.

(** ** [re.split] *)

Lemma pat_blank_progresses : progresses pat_blank.
Proof.
  intros s n. unfold pat_blank. destruct s as [|c t]; [discriminate|].
  destruct (Ascii.eqb c SP) eqn:Esp.
  - intros [= <-]. pose proof (span_len_le (Ascii.eqb SP) (c :: t)) as H.
    split; [|exact H]. apply Ascii.eqb_eq in Esp. subst c. simpl. lia.
  - destruct (Ascii.eqb c NL); [|discriminate]. intros [= <-]. simpl. lia.
Qed.

(** The pieces of a split put together give the subject back. *)
Lemma concat_re_split_from (m : matcher) :
  progresses m ->
  forall fuel seg s, length s <= fuel ->
                     concat (re_split_from m fuel seg s) = seg ++ s.
Proof.
  intros Hm. induction fuel as [|fuel IH]; intros seg s Hlen.
  - simpl. now rewrite app_nil_r.
  - destruct s as [|c t]; [simpl; now rewrite app_nil_r|].
    cbn [re_split_from]. destruct (m (c :: t)) as [n|] eqn:E.
    + pose proof (Hm _ _ E) as Hn. cbn [concat].
      rewrite IH.
      * cbn [app]. now rewrite firstn_skipn.
      * rewrite length_skipn. cbn [length] in *. lia.
    + rewrite IH by (simpl in Hlen; lia). now rewrite <- app_assoc.
Qed.

Lemma concat_re_split (m : matcher) (s : str) :
  progresses m -> concat (re_split m s) = s.
Proof.
  intros Hm. unfold re_split. now rewrite concat_re_split_from.
Qed.

(** A property of every segment and every separator holds of every piece. *)
Lemma re_split_from_Forall (m : matcher) (Pseg P : str -> Prop) :
  progresses m ->
  (forall seg, Pseg seg -> P seg) ->
  (forall seg c t, Pseg seg -> m (c :: t) = None -> Pseg (seg ++ [c])) ->
  (forall s n, m s = Some n -> P (firstn n s)) ->
  Pseg [] ->
  forall fuel seg s, Pseg seg -> length s <= fuel ->
                     Forall P (re_split_from m fuel seg s).
Proof.
  intros Hm Hseg Hstep Hsep Hnil.
  induction fuel as [|fuel IH]; intros seg s Hs Hlen.
  - destruct s; [|simpl in Hlen; lia]. simpl. rewrite app_nil_r. auto.
  - destruct s as [|c t]; [simpl; auto|].
    cbn [re_split_from]. destruct (m (c :: t)) as [n|] eqn:E.
    + constructor; [auto|]. constructor; [now apply Hsep|].
      apply IH; [exact Hnil|].
      pose proof (Hm _ _ E). rewrite length_skipn. cbn [length] in *. lia.
    + apply IH; [now apply (Hstep seg c t) | simpl in Hlen; lia].
Qed.

Lemma mem_snoc_false (x : ascii) (s : str) (c : ascii) :
  mem x s = false -> Ascii.eqb c x = false -> mem x (s ++ [c]) = false.
Proof.
  intros Hs Hc. rewrite mem_app, Hs. simpl. now rewrite Ascii.eqb_sym, Hc.
Qed.

Lemma mem_false_of_forallb (x : ascii) (p : ascii -> bool) (s : str) :
  p x = false -> forallb p s = true -> mem x s = false.
Proof.
  intros Hx. induction s as [|c t IH]; [reflexivity|].
  cbn [forallb mem existsb]. intros H. apply andb_true_iff in H as [Hc Ht].
  unfold mem in IH. rewrite (IH Ht), orb_false_r.
  destruct (Ascii.eqb x c) eqn:E; [|reflexivity].
  apply Ascii.eqb_eq in E. subst c. congruence.
Qed.

(** Each chunk of the default split is a newline or holds none. *)
Lemma wordwrap_chunks_shape (s : str) :
  Forall (fun chunk => chunk = [NL] \/ mem NL chunk = false)
         (wordwrap_chunks s []).
Proof.
  unfold wordwrap_chunks, re_split.
  apply re_split_from_Forall with (Pseg := fun seg => mem NL seg = false);
    auto using pat_blank_progresses.
  - intros seg c t Hseg E. apply mem_snoc_false; [exact Hseg|].
    unfold pat_blank in E. destruct (Ascii.eqb c SP); [discriminate|].
    destruct (Ascii.eqb c NL); [discriminate | reflexivity].
  - intros u n. unfold pat_blank. destruct u as [|c t]; [discriminate|].
    destruct (Ascii.eqb c SP) eqn:Esp.
    + intros E. assert (n = span_len (Ascii.eqb SP) (c :: t)) by congruence.
      subst n. right.
      apply mem_false_of_forallb with (p := Ascii.eqb SP); [reflexivity|].
      apply span_len_forallb.
    + destruct (Ascii.eqb c NL) eqn:Enl; [|discriminate].
      intros [= <-]. left. apply Ascii.eqb_eq in Enl. now subst.
Qed.

(** ** [plaintext_to_html] *)

Lemma plaintext_to_html_cons (c : ascii) (t : str) :
  plaintext_to_html (c :: t) = html_escape_char c ++ plaintext_to_html t.
Proof.
  unfold plaintext_to_html, html_escape_char. cbn [replace].
  destruct (Ascii.eqb c "&") eqn:Eamp.
  { rewrite !replace_app. reflexivity. }
  cbn [replace].
  destruct (Ascii.eqb c DQUOTE) eqn:Equot.
  { rewrite !replace_app. reflexivity. }
  cbn [replace].
  destruct (Ascii.eqb c "<") eqn:Elt.
  { rewrite !replace_app. reflexivity. }
  cbn [replace].
  destruct (Ascii.eqb c ">") eqn:Egt; reflexivity.
Qed.

(** C7. [plaintext_to_html] escapes [&] first, so that every character of
    the input is replaced once, by its own entity, and no entity it wrote
    is escaped again; the sample [<a & "b">] becomes
    [&lt;a &amp; &quot;b&quot;&gt;]. *)
Theorem plaintext_to_html_escapes_once :
  (forall s, plaintext_to_html s
             = replace ">" (py "&gt;")
                 (replace "<" (py "&lt;")
                    (replace DQUOTE (py "&quot;")
                       (replace "&" (py "&amp;") s))))
  /\ (forall s, plaintext_to_html s = flat_map html_escape_char s)
  /\ plaintext_to_html html_sample = py "&lt;a &amp; &quot;b&quot;&gt;".
Proof.
  split; [reflexivity|]. split; [|reflexivity].
  induction s as [|c t IH]; [reflexivity|].
  rewrite plaintext_to_html_cons, IH. reflexivity.
Qed.

(** ** [wordwrap] *)

Lemma concat_snoc (result : list str) (piece : str) :
  concat (result ++ [piece]) = concat result ++ piece.
Proof. rewrite concat_app. simpl. now rewrite app_nil_r. Qed.

Lemma wordwrap_chunks_nil (splitchars : str) :
  wordwrap_chunks [] splitchars = [[]].
Proof. destruct splitchars; reflexivity. Qed.

(** C9. The text [wordwrap] returns is a body followed by one newline,
    and the body does not end in white space (so not in a newline either);
    the empty text becomes a single newline, whatever the parameters. *)
Theorem wordwrap_ends_with_one_newline
        (s : str) (indent right startindex : Z) (splitchars : str) :
  (exists body,
      wordwrap s indent right startindex splitchars = body ++ [NL]
      /\ forall b c, body = b ++ [c] -> isspace c = false)
  /\ wordwrap [] indent right startindex splitchars = [NL].
Proof.
  split.
  - unfold wordwrap. eexists. split; [reflexivity|].
    intros b c H. exact (rstrip_last _ _ _ H).
  - unfold wordwrap. rewrite wordwrap_chunks_nil. cbn [wrap_loop].
    change (str_eqb [] [NL]) with false. rewrite orb_false_r.
    assert (Hstart : starts_plain [] = true) by reflexivity.
    rewrite Hstart.
    destruct ((Z.max indent startindex + len [] >? right)%Z
              && (Z.max indent startindex >? 0)%Z);
      rewrite rstrip_blank; try reflexivity;
      rewrite !concat_snoc; cbn [concat app];
      rewrite ?app_nil_r, ?forallb_app; cbn [forallb];
      rewrite ?spaces_blank; reflexivity.
Qed.

Section WrapWithinMargin.

Variables (indent right : Z) (all : list str).
Hypothesis indent_right : (0 <= indent < right)%Z.

Local Abbreviation fine := (fine_line right indent all).

Lemma fine_rstrip (l : str) : fine l -> fine (rstrip l).
Proof.
  intros [H | (chunk & Hin & [-> | ->])].
  - left. pose proof (rstrip_length l). unfold len in *. lia.
  - right. exists chunk. split; [exact Hin | now right].
  - right. exists chunk. split; [exact Hin|]. right. apply rstrip_idempotent.
Qed.

Lemma fine_nil : fine [].
Proof. left. unfold len. simpl. lia. Qed.

(** The invariant of the loop: the text joined so far ends in a line
    [cur] of [charindex] characters, and every line of it is fine. *)
Lemma wrap_loop_lines (chunks : list str) :
  incl chunks all ->
  Forall (fun chunk => chunk = [NL] \/ mem NL chunk = false) chunks ->
  forall charindex result done cur,
    lines (concat result) = done ++ [cur] ->
    Forall fine done -> fine cur ->
    len cur = charindex -> (indent <= charindex)%Z ->
    Forall fine (lines (concat (wrap_loop indent right chunks
                                          charindex result))).
Proof.
  induction chunks as [|chunk rest IH];
    intros Hincl Hshape charindex result done cur Hlines Hdone Hcur Hlen Hind.
  - cbn [wrap_loop]. rewrite Hlines. apply Forall_app. auto.
  - assert (Hin : In chunk all) by (apply Hincl; now left).
    assert (Hincl' : incl rest all)
      by (intros x Hx; apply Hincl; now right).
    apply Forall_cons_iff in Hshape as [Hchunk Hshape'].
    cbn [wrap_loop].
    destruct (((charindex + len chunk >? right)%Z && (charindex >? 0)%Z)
              || str_eqb chunk [NL]) eqn:Ebreak.
    + (* a line break *)
      assert (Hlines' : lines (concat (result ++ [NL :: spaces indent]))
                        = (done ++ [cur]) ++ [spaces indent]).
      { rewrite concat_snoc. apply lines_snoc_break; [exact Hlines|].
        apply mem_spaces_NL. }
      assert (Hdone' : Forall fine (done ++ [cur]))
        by (apply Forall_app; auto).
      destruct (starts_plain chunk) eqn:Eplain.
      * assert (Hnl : mem NL chunk = false).
        { destruct Hchunk as [-> | H]; [discriminate Eplain | exact H]. }
        apply IH with (done := done ++ [cur])
                      (cur := spaces indent ++ chunk); auto.
        -- rewrite concat_snoc. now apply lines_snoc_chunk.
        -- right. exists chunk. split; [exact Hin | now left].
        -- rewrite len_app, len_spaces; lia.
        -- pose proof (len_nonneg chunk). lia.
      * apply IH with (done := done ++ [cur]) (cur := spaces indent); auto.
        -- left. rewrite len_spaces; lia.
        -- apply len_spaces. lia.
        -- lia.
    + (* the chunk goes on the current line *)
      apply orb_false_iff in Ebreak as [Eover Enl].
      assert (Hnl : mem NL chunk = false).
      { destruct Hchunk as [-> | H]; [discriminate Enl | exact H]. }
      pose proof (len_nonneg chunk) as Hpos.
      apply IH with (done := done) (cur := cur ++ chunk); auto.
      * rewrite concat_snoc. now apply lines_snoc_chunk.
      * apply andb_false_iff in Eover as [E | E].
        -- left. rewrite len_app. lia.
        -- right. exists chunk. split; [exact Hin|]. left.
           assert (indent = 0%Z) by lia. assert (len cur = 0%Z) by lia.
           destruct cur; [|unfold len in *; simpl in *; lia].
           subst indent. reflexivity.
      * rewrite len_app. lia.
      * lia.
Qed.

End WrapWithinMargin.

(** C1, as the code has it.  For margins [0 <= indent < right] and
    [startindex = 0], every line of the text [wordwrap] returns has at
    most [right] characters, unless it is the indentation followed by a
    single chunk of the input, which is never split. *)
Theorem wordwrap_lines_within_right (s : str) (indent right : Z) :
  (0 <= indent < right)%Z ->
  Forall (fun l => (len l <= right)%Z
                   \/ single_chunk_line (wordwrap_chunks s []) indent l)
         (lines (wordwrap s indent right 0 [])).
Proof.
  intros Hm. unfold wordwrap.
  set (chunks := wordwrap_chunks s []).
  set (j := concat (wrap_loop indent right chunks (Z.max indent 0)
                              [spaces (indent - 0)])).
  assert (Hj : Forall (fun l => (len l <= right)%Z
                                \/ single_chunk_line chunks indent l)
                      (lines j)).
  { unfold j.
    apply wrap_loop_lines with (done := []) (cur := spaces indent).
    - exact Hm.
    - apply incl_refl.
    - apply wordwrap_chunks_shape.
    - rewrite Z.sub_0_r. cbn [concat]. rewrite app_nil_r.
      apply lines_single. apply mem_spaces_NL.
    - constructor.
    - left. rewrite len_spaces; lia.
    - rewrite len_spaces; lia.
    - lia. }
  rewrite lines_snoc_NL.
  destruct (lines_rstrip j) as (pre & l & post & Hlines & ->).
  rewrite Hlines in Hj. apply Forall_app in Hj as [Hpre Hrest].
  apply Forall_cons_iff in Hrest as [Hl _].
  apply Forall_app. split.
  - apply Forall_app. split; [exact Hpre|]. constructor; [|constructor].
    now apply fine_rstrip.
  - constructor; [|constructor]. apply fine_nil. exact Hm.
Qed.

Lemma wordwrap_lines_within_right_witness :
  Forall (fun l => (len l <= 5)%Z
                   \/ single_chunk_line
                        (wordwrap_chunks (py "abcdefgh ij kl") []) 2 l)
         (lines (wordwrap (py "abcdefgh ij kl") 2 5 0 [])).
Proof.
  apply (wordwrap_lines_within_right (py "abcdefgh ij kl") 2 5). lia.
Defined.

(** C1, as the claim has it, fails for a negative indent: the column
    restarts below zero after a break, and the line [bbbb cccc], three
    chunks and nine characters long, runs past the margin 3. *)
Lemma wordwrap_negative_indent_overruns :
  wordwrap_chunks (py "aaaa bbbb cccc") []
  = [py "aaaa"; py " "; py "bbbb"; py " "; py "cccc"]
  /\ lines (wordwrap (py "aaaa bbbb cccc") (-5) 3 0 [])
     = [py "aaaa"; py "bbbb cccc"; []]
  /\ len (py "bbbb cccc") = 9%Z
  /\ ~ fine_line 3 (-5) (wordwrap_chunks (py "aaaa bbbb cccc") [])
         (py "bbbb cccc").
Proof.
  split; [reflexivity|]. split; [reflexivity|]. split; [reflexivity|].
  intros [Hlen | (chunk & Hin & Hline)].
  - vm_compute in Hlen. now apply Hlen.
  - vm_compute in Hin.
    repeat (destruct Hin as [<- | Hin];
            [vm_compute in Hline; destruct Hline; discriminate|]).
    exact Hin.
Qed.

(** The sample of the specification: [a b c] wrapped at 3. *)
Example wordwrap_a_b_c :
  wordwrap (py "a b c") 0 3 0 [] = py "a b" ++ [NL] ++ py "c" ++ [NL].
Proof. reflexivity. Qed.

(** White space at the end is what [rstrip] takes it to be: a unit
    separator or a no-break space goes, though no chunk is cut at it. *)
Example wordwrap_strips_unicode_white_space :
  wordwrap (py "a" ++ [US]) 0 75 0 [] = py "a" ++ [NL]
  /\ wordwrap_chunks (py "abcdefgh" ++ [NBSP]) [] = [py "abcdefgh" ++ [NBSP]]
  /\ wordwrap (py "abcdefgh" ++ [NBSP]) 0 5 0 [] = py "abcdefgh" ++ [NL].
Proof. split; [|split]; reflexivity. Qed.

(** ** Text that [wordwrap] leaves as it is *)

Lemma expandtabs_from_no_tab (tabsize : nat) (s : str) :
  mem TAB s = false -> forall col, expandtabs_from tabsize col s = s.
Proof.
  induction s as [|c t IH]; [reflexivity|].
  cbn [mem existsb]. rewrite Ascii.eqb_sym. intros H col.
  apply orb_false_iff in H as [Hc Ht]. cbn [expandtabs_from]. rewrite Hc.
  unfold mem in IH. destruct (Ascii.eqb c NL || Ascii.eqb c CR);
    now rewrite (IH Ht).
Qed.

Lemma str_eqb_NL_false (chunk : str) :
  mem NL chunk = false -> str_eqb chunk [NL] = false.
Proof.
  intros H. apply str_eqb_neq. intros ->. discriminate H.
Qed.

(** Chunks that trigger no break are copied one after the other, the
    newlines among them too (with no indentation behind them). *)
Lemma wrap_loop_no_break (right : Z) (chunks : list str) :
  forall col result,
    no_break right col chunks ->
    concat (wrap_loop 0 right chunks col result)
    = concat result ++ concat chunks.
Proof.
  induction chunks as [|chunk rest IH]; intros col result H.
  - simpl. now rewrite app_nil_r.
  - cbn [wrap_loop no_break concat] in *.
    destruct (str_eqb chunk [NL]) eqn:Enl.
    + apply str_eqb_eq in Enl. subst chunk. rewrite orb_true_r.
      change (starts_plain [NL]) with false. cbv iota.
      rewrite (IH _ _ H), concat_snoc.
      change (spaces 0) with ([] : str). now rewrite <- app_assoc.
    + destruct H as [Hfit H]. rewrite orb_false_r.
      replace ((col + len chunk >? right)%Z && (col >? 0)%Z) with false
        by (symmetry; apply andb_false_iff; lia).
      rewrite (IH _ _ H), concat_snoc. now rewrite <- app_assoc.
Qed.

Lemma lines_hd_tl (s : str) : lines s = hd [] (lines s) :: tl (lines s).
Proof.
  destruct (lines s) eqn:E; [now apply lines_nonempty in E | reflexivity].
Qed.

Lemma lines_chunk_app (m s : str) :
  mem NL m = false ->
  lines (m ++ s) = (m ++ hd [] (lines s)) :: tl (lines s).
Proof. intros H. now rewrite lines_app, (lines_single m H). Qed.

(** A text whose first line fits behind column [col] (or starts there
    with no blank in it), and whose further lines are settled, splits
    into chunks that trigger no break. *)
Lemma no_break_split (right : Z) :
  forall fuel s seg col,
    length s <= fuel ->
    mem NL seg = false ->
    Forall (settled_line right) (tl (lines s)) ->
    (col + len seg + len (hd [] (lines s)) <= right)%Z
    \/ ((col <= 0)%Z /\ mem SP (hd [] (lines s)) = false) ->
    no_break right col (re_split_from pat_blank fuel seg s).
Proof.
  induction fuel as [|fuel IH]; intros s seg col Hlen Hseg Htl Hhd.
  - destruct s; [|simpl in Hlen; lia]. cbn [re_split_from no_break].
    rewrite app_nil_r, (str_eqb_NL_false seg Hseg).
    cbn [lines hd] in Hhd. change (len []) with 0%Z in Hhd.
    split; [lia | exact I].
  - destruct s as [|c t].
    { cbn [re_split_from no_break]. rewrite (str_eqb_NL_false seg Hseg).
      cbn [lines hd] in Hhd. change (len []) with 0%Z in Hhd.
      split; [lia | exact I]. }
    cbn [re_split_from].
    destruct (pat_blank (c :: t)) as [n|] eqn:Epat.
    + pose proof (pat_blank_progresses _ _ Epat) as Hn.
      set (m := firstn n (c :: t)) in *.
      set (s' := skipn n (c :: t)) in *.
      assert (Hs : c :: t = m ++ s')
        by (symmetry; apply firstn_skipn).
      assert (Hlen' : length s' <= fuel).
      { unfold s'. rewrite length_skipn. cbn [length] in *. lia. }
      cbn [no_break]. rewrite (str_eqb_NL_false seg Hseg).
      unfold pat_blank in Epat.
      destruct (Ascii.eqb c SP) eqn:Esp.
      * (* a run of blanks *)
        assert (En : n = span_len (Ascii.eqb SP) (c :: t)) by congruence.
        assert (Hm : forallb (Ascii.eqb SP) m = true).
        { unfold m. rewrite En. apply span_len_forallb. }
        assert (Hmnl : mem NL m = false)
          by (now apply mem_false_of_forallb with (p := Ascii.eqb SP)).
        assert (Hmsp : mem SP (m ++ hd [] (lines s')) = true).
        { unfold m. destruct n as [|k]; [lia|]. cbn [firstn app mem existsb].
          now rewrite Ascii.eqb_sym, Esp. }
        assert (Hmlen : len m = Z.of_nat n).
        { unfold len, m. rewrite length_firstn. cbn [length] in *. lia. }
        rewrite Hs, (lines_chunk_app m s' Hmnl) in Htl, Hhd.
        cbn [hd tl] in Htl, Hhd. rewrite len_app in Hhd.
        destruct Hhd as [Hfit | [_ Hno]]; [|congruence].
        pose proof (len_nonneg (hd [] (lines s'))).
        pose proof (len_nonneg seg).
        rewrite (str_eqb_NL_false m Hmnl).
        split; [lia|]. split; [lia|].
        apply IH; auto. left. change (len []) with 0%Z. lia.
      * (* a newline *)
        destruct (Ascii.eqb c NL) eqn:Enl; [|discriminate].
        apply Ascii.eqb_eq in Enl. subst c.
        assert (n = 1) by congruence. subst n.
        unfold m, s' in *. cbn [firstn skipn] in *.
        rewrite lines_cons_NL in Htl, Hhd. cbn [hd tl] in Htl, Hhd.
        change (len []) with 0%Z in Hhd.
        split; [lia|]. rewrite str_eqb_refl.
        rewrite (lines_hd_tl t) in Htl.
        apply Forall_cons_iff in Htl as [Hfirst Htl].
        apply IH; auto.
        change (len []) with 0%Z.
        destruct Hfirst as [Hfit | Hno]; [left; lia | right; split; [lia|]].
        exact Hno.
    + unfold pat_blank in Epat.
      destruct (Ascii.eqb c SP) eqn:Esp; [discriminate|].
      destruct (Ascii.eqb c NL) eqn:Enl; [discriminate|].
      destruct (lines_cons_other c t Enl) as (l & ls & E1 & E2).
      rewrite E2 in Htl, Hhd. cbn [hd tl] in Htl, Hhd.
      apply IH.
      * simpl in Hlen. lia.
      * now apply mem_snoc_false.
      * now rewrite E1.
      * rewrite E1. cbn [hd]. rewrite len_app.
        change (len [c]) with 1%Z.
        replace (len (c :: l)) with (1 + len l)%Z in Hhd
          by (unfold len; cbn [length]; lia).
        destruct Hhd as [Hfit | [Hcol Hno]]; [left; lia | right].
        split; [exact Hcol|]. cbn [mem existsb] in Hno.
        now apply orb_false_iff in Hno as [_ Hno].
Qed.

(** C5, as the code has it.  With no indentation (and from column 0),
    [wordwrap] returns unchanged every text that holds no tab, ends in
    one newline with no white space before it, and whose lines each fit
    within the margin or hold no blank. *)
Theorem wordwrap_fixes_wrapped_text (body : str) (right : Z) :
  mem TAB body = false ->
  rstrip body = body ->
  Forall (settled_line right) (lines body) ->
  wordwrap (body ++ [NL]) 0 right 0 [] = body ++ [NL].
Proof.
  intros Htab Hstrip Hlines. unfold wordwrap, wordwrap_chunks, expandtabs.
  rewrite expandtabs_from_no_tab
    by (rewrite mem_app, Htab; reflexivity).
  rewrite wrap_loop_no_break.
  - rewrite (concat_re_split pat_blank (body ++ [NL]) pat_blank_progresses).
    change (concat [spaces (0 - 0)]) with ([] : str). cbn [app].
    rewrite rstrip_snoc_space by reflexivity.
    now rewrite Hstrip.
  - unfold re_split. apply no_break_split.
    + lia.
    + reflexivity.
    + rewrite lines_snoc_NL, (lines_hd_tl body). cbn [app tl].
      rewrite (lines_hd_tl body) in Hlines.
      apply Forall_cons_iff in Hlines as [_ Htl].
      apply Forall_app. split; [exact Htl|].
      constructor; [now right | constructor].
    + rewrite lines_snoc_NL, (lines_hd_tl body). cbn [app hd].
      rewrite (lines_hd_tl body) in Hlines.
      apply Forall_cons_iff in Hlines as [[Hfit | Hno] _].
      * left. change (len []) with 0%Z. cbn [Z.max]. lia.
      * right. split; [cbn; lia | exact Hno].
Qed.

Lemma wordwrap_fixes_wrapped_text_witness :
  wordwrap (py "a b" ++ [NL] ++ py "abcdef" ++ [NL] ++ py "c" ++ [NL]) 0 3 0 []
  = py "a b" ++ [NL] ++ py "abcdef" ++ [NL] ++ py "c" ++ [NL].
Proof.
  refine (wordwrap_fixes_wrapped_text
            (py "a b" ++ [NL] ++ py "abcdef" ++ [NL] ++ py "c") 3 _ _ _).
  - reflexivity.
  - reflexivity.
  - change (Forall (settled_line 3) [py "a b"; py "abcdef"; py "c"]).
    constructor; [left; vm_compute; discriminate|].
    constructor; [right; reflexivity|].
    constructor; [left; vm_compute; discriminate | constructor].
Defined.

(** C5, as the claim has it, fails as soon as there is an indentation:
    the text [wordwrap] itself made of [a] for an indent of 2 comes back
    from a second pass with the indentation twice. *)
Lemma wordwrap_indent_twice :
  wordwrap (py "a") 2 75 0 [] = py "  a" ++ [NL]
  /\ wordwrap (py "  a" ++ [NL]) 2 75 0 [] = py "    a" ++ [NL]
  /\ wordwrap (py "  a" ++ [NL]) 2 75 0 [] <> py "  a" ++ [NL].
Proof. split; [reflexivity|]. split; [reflexivity | discriminate]. Qed.

(** With no indentation a line of blanks longer than the margin is not
    kept either: a second pass adds an empty line after it. *)
Lemma wordwrap_blank_line_grows :
  wordwrap (py "     a") 0 3 0 [] = py "     " ++ [NL] ++ py "a" ++ [NL]
  /\ wordwrap (py "     " ++ [NL] ++ py "a" ++ [NL]) 0 3 0 []
     = py "     " ++ [NL] ++ [NL] ++ py "a" ++ [NL].
Proof. split; reflexivity. Qed.

(** ** [py_src_filename] *)

(** C10. A file name that already ends in [.py] or [.pyw] is returned as
    it is, whatever the file system holds: [isfile] is arbitrary, so also
    when no such file exists. *)
Theorem py_src_filename_source_unchanged
        (isfile : str -> bool) (repr : str -> str) (filename : str) :
  In (snd (splitext filename)) PY_SRC_EXTENSIONS ->
  py_src_filename isfile repr filename = Ok filename.
Proof.
  intros Hext. unfold py_src_filename.
  destruct (splitext filename) as [basefile extension]. cbn [snd fst] in *.
  apply str_in_In in Hext. now rewrite Hext.
Qed.

Lemma py_src_filename_source_unchanged_witness :
  py_src_filename (fun _ => false) quote_repr (py "pkg/mod.pyw")
  = Ok (py "pkg/mod.pyw").
Proof.
  apply (py_src_filename_source_unchanged (fun _ => false) quote_repr
           (py "pkg/mod.pyw")).
  simpl. right. left. reflexivity.
Defined.

(** C6. For a file name whose extension is no source extension, the
    candidates [basefile + '.py'] and [basefile + '.pyw'] are tried in this
    order and the first that is a file is returned; when neither is one,
    the call raises a [ValueError] whose message names the file. *)
Theorem py_src_filename_resolves
        (isfile : str -> bool) (repr : str -> str) (filename : str) :
  ~ In (snd (splitext filename)) PY_SRC_EXTENSIONS ->
  py_src_filename isfile repr filename =
    let basefile := fst (splitext filename) in
    if isfile (basefile ++ py ".py") then Ok (basefile ++ py ".py")
    else if isfile (basefile ++ py ".pyw") then Ok (basefile ++ py ".pyw")
    else Raise (ValueError
                  (py "Could not find a corresponding Python source file for "
                   ++ repr filename ++ py ".")).
Proof.
  intros Hext. unfold py_src_filename.
  destruct (splitext filename) as [basefile extension]. cbn [snd fst] in *.
  apply str_in_not_In in Hext. rewrite Hext.
  unfold PY_SRC_EXTENSIONS, first_source_file, not_found_message.
  destruct (isfile (basefile ++ py ".py")); [reflexivity|].
  destruct (isfile (basefile ++ py ".pyw")); reflexivity.
Qed.

Lemma py_src_filename_resolves_witness :
  py_src_filename (fun p => str_eqb p (py "pkg/mod.py")) quote_repr
                  (py "pkg/mod.pyc") = Ok (py "pkg/mod.py")
  /\ py_src_filename (fun p => str_eqb p (py "pkg/mod.pyw")) quote_repr
                     (py "pkg/mod.pyc") = Ok (py "pkg/mod.pyw")
  /\ py_src_filename (fun _ => false) quote_repr (py "pkg/mod.pyc")
     = Raise (ValueError
                (py "Could not find a corresponding Python source file for 'pkg/mod.pyc'.")).
Proof.
  assert (Hext : ~ In (snd (splitext (py "pkg/mod.pyc"))) PY_SRC_EXTENSIONS).
  { simpl. intros [H | [H | H]]; [discriminate H | discriminate H | exact H]. }
  split; [|split].
  - exact (py_src_filename_resolves
             (fun p => str_eqb p (py "pkg/mod.py")) quote_repr _ Hext).
  - exact (py_src_filename_resolves
             (fun p => str_eqb p (py "pkg/mod.pyw")) quote_repr _ Hext).
  - exact (py_src_filename_resolves (fun _ => false) quote_repr _ Hext).
Defined.

(** ** The classification predicates *)

Lemma is_module_file_non_string (fs : filesystem) (v : pyval) :
  as_string v = None -> is_module_file fs v = Ok (PyBool false).
Proof. intros H. unfold is_module_file. now rewrite H. Qed.

Lemma is_module_file_never_raises (fs : filesystem) (v : pyval) :
  exists r, is_module_file fs v = Ok r.
Proof.
  unfold is_module_file. destruct (as_string v) as [path|]; [|now eexists].
  destruct (path_split path) as [dir filename].
  destruct (splitext filename) as [basename extension]. now eexists.
Qed.

Lemma is_module_file_missing (fs : filesystem) (path : str) :
  isfile fs path = false -> is_module_file fs (PyStr path) = Ok (PyBool false).
Proof.
  intros H. unfold is_module_file. cbn [as_string].
  destruct (path_split path) as [dir filename].
  destruct (splitext filename) as [basename extension]. now rewrite H.
Qed.

Lemma is_src_filename_never_raises (fs : filesystem) (v : pyval) :
  exists r, is_src_filename fs v = Ok r.
Proof.
  unfold is_src_filename. destruct (as_string v) as [filename|]; [|now eexists].
  destruct (path_exists fs filename); now eexists.
Qed.

Lemma is_src_filename_negative (fs : filesystem) (v : pyval) :
  (forall s, v = PyStr s -> path_exists fs s = false) ->
  is_src_filename fs v = Ok (PyBool false).
Proof.
  intros H. unfold is_src_filename.
  destruct v; simpl; try reflexivity. now rewrite (H s eq_refl).
Qed.

Lemma is_package_dir_negative (fs : filesystem) (v : pyval) :
  (forall s, v = PyStr s -> isdir fs s = false) ->
  is_package_dir fs v = Ok (PyBool false).
Proof.
  intros H. unfold is_package_dir.
  destruct v; simpl; try reflexivity. now rewrite (H s eq_refl).
Qed.

(** A directory that cannot be listed: the error of [os.listdir] is not
    caught. *)
Lemma is_package_dir_unreadable (fs : filesystem) (dirname : str) (e : exn) :
  isdir fs dirname = true ->
  listdir fs (abspath fs dirname) = Raise e ->
  is_package_dir fs (PyStr dirname) = Raise e.
Proof.
  intros Hdir Hlist. unfold is_package_dir. cbn [as_string].
  rewrite Hdir. cbn [negb].
  destruct (path_split (abspath fs dirname)) as [parent dir].
  destruct (if str_eqb dir [] then path_split parent else (parent, dir)).
  now rewrite Hlist.
Qed.

Lemma is_pyname_on_strings (s : str) : exists r, is_pyname (PyStr s) = Ok r.
Proof. now eexists. Qed.

Lemma is_pyname_non_string (v : pyval) :
  as_string v = None -> is_pyname v = Raise TypeError.
Proof. destruct v; simpl; intros H; try reflexivity. discriminate H. Qed.

(** C4. [is_pyname] hands its argument to [re.match] with no test of its
    type: on a value that is no string, such as [42] or [None], it raises
    [TypeError], where [is_module_file], [is_src_filename] and
    [is_package_dir] return [False]. *)
Theorem is_pyname_raises_on_non_string :
  is_pyname (PyInt 42) = Raise TypeError
  /\ is_pyname PyNone = Raise TypeError
  /\ is_module_file empty_fs (PyInt 42) = Ok (PyBool false)
  /\ is_src_filename empty_fs (PyInt 42) = Ok (PyBool false)
  /\ is_package_dir empty_fs (PyInt 42) = Ok (PyBool false).
Proof. repeat split. Qed.

(** ** [run_subprocess] *)

Lemma raise_RunSubprocessError_cons (A : Type) (cmd0 : str)
      (rest : list str) (out err : str) :
  @raise_RunSubprocessError A (cmd0 :: rest) out err
  = Raise (RunSubprocessError (cmd0 ++ py " failed") out err).
Proof. reflexivity. Qed.

(** C3, as the code has it.  With [subprocess] at hand: a child that exits
    with status 0 gives [(out, err)]; a child that exits with another
    status raises [RunSubprocessError], with the message [cmd[0] failed]
    and both captured streams; an exception raised by [Popen] (the program
    cannot be started) or by [communicate] passes through as it is. *)
Theorem run_subprocess_outcomes
        (env : process_env) (cmd : command) (data : option str)
        (cmd0 : str) (rest : list str) :
  subprocess_available env = true ->
  command_words cmd = cmd0 :: rest ->
  (forall out err returncode,
      Popen env (cmd0 :: rest) data = Communicated out err (Some returncode) ->
      (returncode = 0%Z -> run_subprocess env cmd data = Ok (out, err))
      /\ (returncode <> 0%Z ->
          run_subprocess env cmd data
          = Raise (RunSubprocessError (cmd0 ++ py " failed") out err)))
  /\ (forall e, e <> ImportError ->
      Popen env (cmd0 :: rest) data = PopenRaises e ->
      run_subprocess env cmd data = Raise e)
  /\ (forall e, e <> ImportError ->
      Popen env (cmd0 :: rest) data = CommunicateRaises e ->
      run_subprocess env cmd data = Raise e).
Proof.
  intros Hsub Hcmd. unfold run_subprocess, run_with_subprocess.
  rewrite Hcmd, Hsub. simpl negb. cbv iota.
  split; [|split].
  - intros out err returncode HP. rewrite HP. split.
    + intros ->. reflexivity.
    + intros Hrc. apply Z.eqb_neq in Hrc. rewrite Hrc. reflexivity.
  - intros e He HP. rewrite HP. destruct e; try reflexivity. now elim He.
  - intros e He HP. rewrite HP. destruct e; try reflexivity. now elim He.
Qed.

Lemma run_subprocess_outcomes_witness :
  run_subprocess env_false_exits_1 (CmdList [py "false"]) None
  = Raise (RunSubprocessError (py "false failed") [] []).
Proof.
  refine (proj2 (proj1 (run_subprocess_outcomes env_false_exits_1
                          (CmdList [py "false"]) None (py "false") []
                          eq_refl eq_refl)
                       [] [] 1%Z eq_refl) _).
  discriminate.
Defined.

(** A command given as one string is cut at white space, the unit
    separator included, and the first word names it in the error. *)
Example run_subprocess_string_command :
  command_words (CmdString (py "false" ++ [US] ++ py "x"))
  = [py "false"; py "x"]
  /\ run_subprocess env_false_exits_1
                    (CmdString (py "false" ++ [US] ++ py "x")) None
     = Raise (RunSubprocessError (py "false failed") [] []).
Proof. split; reflexivity. Qed.

(** C3, as the claim has it, fails: when the program cannot be started the
    error that reaches the caller is the [OSError] of [Popen], which is no
    [RunSubprocessError] and carries no captured stream. *)
Lemma run_subprocess_launch_failure_untyped :
  run_subprocess env_no_such_program (CmdList [py "no-such-program"]) None
  = Raise (OSError (py "[Errno 2] No such file or directory"))
  /\ (forall message out err,
         run_subprocess env_no_such_program
                        (CmdList [py "no-such-program"]) None
         <> Raise (RunSubprocessError message out err)).
Proof. split; [reflexivity | discriminate]. Qed.

(** On the [os.popen3] path an error while writing to the child is raised
    again as a plain [OSError]. *)
Lemma run_subprocess_write_error_os_popen3
      (env : process_env) (cmd : command) (data : option str)
      (pipe : os_popen3_run) (message : str) :
  subprocess_available env = false ->
  popen2_available env = true ->
  popen2_has_Popen3 env = false ->
  os_popen3 env (join_blank (command_words cmd)) data = Ok pipe ->
  data_given data = true ->
  op_write_error pipe = Some message ->
  run_subprocess env cmd data = Raise (OSError message).
Proof.
  intros Hsub Hp2 Hp3 Hrun Hdata Hw.
  unfold run_subprocess, run_with_subprocess, run_with_os_popen3.
  rewrite Hsub, Hp2, Hp3. simpl. rewrite Hrun. simpl.
  now rewrite Hdata, Hw.
Qed.

(** ** [TerminalController] *)

Module TerminalControllerFacts.
Import TerminalController.

(** A branch of a matcher on a literal character that was not taken. *)
Ltac other_char c :=
  destruct c as [[] [] [] [] [] [] [] []]; try discriminate.

Lemma pat_substitution_progresses : progresses pat_substitution.
Proof.
  intros s n. unfold pat_substitution.
  destruct s as [|c0 [|c1 t]]; try discriminate.
  - other_char c0.
  - destruct (Ascii.eqb c0 "$") eqn:E0.
    2:{ other_char c0. }
    apply Ascii.eqb_eq in E0. subst c0.
    destruct (Ascii.eqb c1 "$") eqn:E1.
    { apply Ascii.eqb_eq in E1. subst c1. intros [= <-]. simpl. lia. }
    destruct (Ascii.eqb c1 "{") eqn:E2.
    2:{ other_char c1. }
    apply Ascii.eqb_eq in E2. subst c1.
    destruct (span_len is_word t) as [|k] eqn:Ek; [discriminate|].
    destruct (skipn (S k) t) as [|c u] eqn:Eu; [discriminate|].
    assert (Hlen : S k < length t).
    { assert (length (skipn (S k) t) = length t - S k) by apply length_skipn.
      rewrite Eu in H. simpl in H. lia. }
    destruct (Ascii.eqb c "}") eqn:E3.
    + apply Ascii.eqb_eq in E3. subst c. intros [= <-]. simpl. lia.
    + other_char c.
Qed.

Lemma pat_substitution_sound (s : str) (n : nat) :
  pat_substitution s = Some n -> starts_substitution s.
Proof.
  unfold pat_substitution.
  destruct s as [|c0 [|c1 t]]; try discriminate.
  - other_char c0.
  - destruct (Ascii.eqb c0 "$") eqn:E0.
    2:{ other_char c0. }
    apply Ascii.eqb_eq in E0. subst c0.
    destruct (Ascii.eqb c1 "$") eqn:E1.
    { apply Ascii.eqb_eq in E1. subst c1. intros _. left. now exists t. }
    destruct (Ascii.eqb c1 "{") eqn:E2.
    2:{ other_char c1. }
    apply Ascii.eqb_eq in E2. subst c1.
    destruct (span_len is_word t) as [|k] eqn:Ek; [discriminate|].
    destruct (skipn (S k) t) as [|c u] eqn:Eu; [discriminate|].
    destruct (Ascii.eqb c "}") eqn:E3.
    2:{ other_char c. }
    apply Ascii.eqb_eq in E3. subst c. intros _. right.
    exists (firstn (S k) t), u. split; [|split].
    + pose proof (span_len_le is_word t) as Hle. rewrite Ek in Hle.
      destruct t; [simpl in Hle; lia | discriminate].
    + rewrite <- Ek. apply span_len_forallb.
    + cbn [py list_ascii_of_string app]. do 2 f_equal.
      rewrite <- Eu. symmetry. apply firstn_skipn.
Qed.

Lemma pat_substitution_name (name t : str) :
  name <> [] -> forallb is_word name = true ->
  pat_substitution (py "${" ++ name ++ py "}" ++ t)
  = Some (length (py "${" ++ name ++ py "}")).
Proof.
  intros Hne Hw. cbn [py list_ascii_of_string app pat_substitution].
  rewrite (span_len_app_stop is_word name "}" t Hw eq_refl).
  destruct name as [|a name]; [congruence|]. cbn [length].
  change (a :: name ++ "}"%char :: t) with ((a :: name) ++ "}"%char :: t).
  replace (S (length name)) with (length (a :: name)) by reflexivity.
  rewrite skipn_app_exact. rewrite !length_app. cbn [length]. f_equal. lia.
Qed.

Lemma render_nil (self : attrs) : render self [] = Ok [].
Proof. reflexivity. Qed.

Lemma render_dollar_dollar (self : attrs) (t : str) :
  render self (py "$$" ++ t) = (r <- render self t ;; Ok (py "$$" ++ r)).
Proof.
  unfold render.
  rewrite (@re_sub_function_match pat_substitution _ (py "$$" ++ t) 2
             pat_substitution_progresses eq_refl).
  reflexivity.
Qed.

Lemma inner_name_substitution (name : str) :
  inner_name (py "${" ++ name ++ py "}") = name.
Proof.
  unfold inner_name. cbn [py list_ascii_of_string app skipn].
  apply removelast_last.
Qed.

Lemma render_name (self : attrs) (name v t : str) :
  name <> [] -> forallb is_word name = true ->
  getattr self name = Ok (PyStr v) ->
  render self (py "${" ++ name ++ py "}" ++ t)
  = (r <- render self t ;; Ok (v ++ r)).
Proof.
  intros Hne Hw Hget. unfold render.
  rewrite (@re_sub_function_match pat_substitution _ _ _
             pat_substitution_progresses (pat_substitution_name name t Hne Hw)).
  replace (py "${" ++ name ++ py "}" ++ t)
    with ((py "${" ++ name ++ py "}") ++ t)
    by (now rewrite <- !app_assoc).
  rewrite firstn_app_exact, skipn_app_exact.
  unfold _render_sub at 1. rewrite inner_name_substitution, Hget.
  replace (str_eqb (py "${" ++ name ++ py "}") (py "$$")) with false
    by (symmetry; apply str_eqb_neq; discriminate).
  reflexivity.
Qed.

Lemma render_other (self : attrs) (c : ascii) (t : str) :
  ~ starts_substitution (c :: t) ->
  render self (c :: t) = (r <- render self t ;; Ok (c :: r)).
Proof.
  intros Hno. unfold render. apply re_sub_function_cons_none.
  destruct (pat_substitution (c :: t)) as [n|] eqn:E; [|reflexivity].
  elim Hno. exact (pat_substitution_sound _ _ E).
Qed.

Lemma lookup_In (name : str) (self : attrs) (v : pyval) :
  lookup name self = Some v -> In (name, v) self.
Proof.
  induction self as [|[k w] self IH]; simpl; [discriminate|].
  destruct (str_eqb k name) eqn:E.
  - apply str_eqb_eq in E. intros [= <-]. left. now subst.
  - intros H. right. now apply IH.
Qed.

Lemma strings_but_cols_setattr (self : attrs) (name s : str) :
  strings_but_cols self -> strings_but_cols (setattr self name (PyStr s)).
Proof.
  intros H k v [E | Hin].
  - injection E as <- <-. left. now exists s.
  - now apply H.
Qed.

Lemma strings_but_cols_capabilities (c : curses_module)
      (capabilities : list str) :
  forall self self',
    set_string_capabilities c capabilities self = Ok self' ->
    strings_but_cols self -> strings_but_cols self'.
Proof.
  induction capabilities as [|capability rest IH]; intros self self' H Hs;
    cbn [set_string_capabilities] in H.
  - assert (self = self') by congruence. now subst.
  - destruct (split_capability capability) as [attrib cap_name].
    destruct (_tigetstr c cap_name) as [cap|e]; [|discriminate H].
    cbn [bind] in H. apply (IH _ _ H). now apply strings_but_cols_setattr.
Qed.

Lemma strings_but_cols_colors (c : curses_module) (set_fg : str)
      (colors : list (nat * str)) :
  forall self self',
    set_colors c set_fg colors self = Ok self' ->
    strings_but_cols self -> strings_but_cols self'.
Proof.
  induction colors as [|[i color] rest IH]; intros self self' H Hs;
    cbn [set_colors] in H.
  - assert (self = self') by congruence. now subst.
  - destruct (_tparm c set_fg (Z.of_nat i)) as [s|e]; [|discriminate H].
    cbn [bind] in H. apply (IH _ _ H). now apply strings_but_cols_setattr.
Qed.

Lemma strings_but_cols_init (t : terminal) (self : attrs) :
  __init__ t = Ok self -> strings_but_cols self.
Proof.
  assert (Hnil : strings_but_cols []) by (intros k v []).
  assert (Hok : forall a b : attrs,
             Ok a = Ok b -> strings_but_cols a -> strings_but_cols b).
  { intros a b E Ha. assert (a = b) by congruence. now subst. }
  unfold __init__.
  destruct (isatty t); cbn [negb]; [|intros E; exact (Hok _ _ E Hnil)].
  destruct (FORCE_SIMPLE_TERM t); [intros E; exact (Hok _ _ E Hnil)|].
  destruct (curses t) as [c|].
  2:{ intros E. apply (Hok _ _ E). now do 2 apply strings_but_cols_setattr. }
  destruct (setupterm c); cbn [negb]; [|intros E; exact (Hok _ _ E Hnil)].
  cbv zeta.
  set (self0 := setattr [] (py "COLS") (PyInt (tigetnum c (py "cols")))).
  assert (H0 : strings_but_cols self0).
  { intros k v [E | []]. injection E as <- <-. now right. }
  destruct (set_string_capabilities c _STRING_CAPABILITIES self0)
    as [self1|e] eqn:E1; [|discriminate].
  pose proof (strings_but_cols_capabilities _ _ _ _ E1 H0) as H1.
  cbn [bind].
  set (self2 := match str_attr self1 (py "BOL") with
                | [] => self1
                | _ :: _ => _
                end).
  assert (H2 : strings_but_cols self2).
  { unfold self2. destruct (str_attr self1 (py "BOL")); [exact H1|].
    destruct (str_attr self1 (py "CLEAR_EOL")); [exact H1|].
    now apply strings_but_cols_setattr. }
  clearbody self2.
  destruct (_tigetstr c (py "setf")) as [set_fg|e]; [|discriminate].
  cbn [bind].
  assert (H3 : forall self3,
             match set_fg with
             | [] => Ok self2
             | _ :: _ => set_colors c set_fg (numbered _COLORS) self2
             end = Ok self3 -> strings_but_cols self3).
  { intros self3 E. destruct set_fg.
    - exact (Hok _ _ E H2).
    - exact (strings_but_cols_colors _ _ _ _ _ E H2). }
  destruct (match set_fg with [] => _ | _ :: _ => _ end) as [self3|e];
    [|discriminate].
  specialize (H3 self3 eq_refl). cbn [bind].
  destruct (_tigetstr c (py "setaf")) as [set_fg_ansi|e]; [|discriminate].
  cbn [bind].
  assert (H4 : forall self4,
             match set_fg_ansi with
             | [] => Ok self3
             | _ :: _ =>
               set_colors c set_fg_ansi (numbered _ANSICOLORS) self3
             end = Ok self4 -> strings_but_cols self4).
  { intros self4 E. destruct set_fg_ansi.
    - exact (Hok _ _ E H3).
    - exact (strings_but_cols_colors _ _ _ _ _ E H3). }
  destruct (match set_fg_ansi with [] => _ | _ :: _ => _ end) as [self4|e];
    [|discriminate].
  cbn [bind]. intros E. exact (Hok _ _ E (H4 self4 eq_refl)).
Qed.

Lemma capability_field_name (name : str) :
  In name CAPABILITY_FIELDS ->
  name <> [] /\ forallb is_word name = true
  /\ name <> py "COLS" /\ lookup name class_dict = Some (PyStr []).
Proof.
  unfold CAPABILITY_FIELDS. cbn [map In]. intros H.
  repeat (destruct H as [<- | H];
          [repeat split; try reflexivity; discriminate|]).
  contradiction.
Qed.

(** The constructor leaves a string in every capability field. *)
Lemma capability_field_string (t : terminal) (self : attrs) (name : str) :
  __init__ t = Ok self ->
  In name CAPABILITY_FIELDS ->
  exists v, getattr self name = Ok (PyStr v).
Proof.
  intros Hinit Hin.
  destruct (capability_field_name name Hin) as (_ & _ & Hc & Hd).
  unfold getattr. destruct (lookup name self) as [v|] eqn:E.
  - apply lookup_In in E.
    destruct (strings_but_cols_init t self Hinit _ _ E) as [[s ->] | ->].
    + now exists s.
    + now elim Hc.
  - rewrite Hd. now exists [].
Qed.

(** C2, as the code has it.  On every instance the constructor builds,
    [render] keeps each [$$] as it stands, replaces each [${NAME}] whose
    [NAME] is a capability field by the string stored in it, and copies
    every character that starts no substitution. *)
Theorem render_substitutes (t : terminal) (self : attrs) :
  __init__ t = Ok self ->
  render self [] = Ok []
  /\ (forall rest,
         render self (py "$$" ++ rest)
         = (r <- render self rest ;; Ok (py "$$" ++ r)))
  /\ (forall name rest,
         In name CAPABILITY_FIELDS ->
         exists v, getattr self name = Ok (PyStr v)
                   /\ render self (py "${" ++ name ++ py "}" ++ rest)
                      = (r <- render self rest ;; Ok (v ++ r)))
  /\ (forall c rest,
         ~ starts_substitution (c :: rest) ->
         render self (c :: rest) = (r <- render self rest ;; Ok (c :: r))).
Proof.
  intros Hinit. split; [apply render_nil|].
  split; [apply render_dollar_dollar|]. split; [|apply render_other].
  intros name rest Hin.
  destruct (capability_field_string t self name Hinit Hin) as [v Hv].
  destruct (capability_field_name name Hin) as (Hne & Hw & _).
  exists v. split; [exact Hv|]. now apply render_name.
Qed.

Lemma render_substitutes_witness :
  render [] [] = Ok []
  /\ (forall rest,
         render [] (py "$$" ++ rest)
         = (r <- render [] rest ;; Ok (py "$$" ++ r)))
  /\ (forall name rest,
         In name CAPABILITY_FIELDS ->
         exists v, getattr [] name = Ok (PyStr v)
                   /\ render [] (py "${" ++ name ++ py "}" ++ rest)
                      = (r <- render [] rest ;; Ok (v ++ r)))
  /\ (forall c rest,
         ~ starts_substitution (c :: rest) ->
         render [] (c :: rest) = (r <- render [] rest ;; Ok (c :: r))).
Proof. exact (render_substitutes not_a_tty [] eq_refl). Defined.

(** C2, as the claim has it, fails on [$$]: the two characters come out
    as they went in, not as one [$]. *)
Lemma render_keeps_dollar_dollar :
  (self <- __init__ not_a_tty ;; render self (py "$$")) = Ok (py "$$")
  /\ (self <- __init__ not_a_tty ;; render self (py "$$")) <> Ok (py "$").
Proof. split; [reflexivity | discriminate]. Qed.

(** On a terminal the capabilities are looked up, their delays removed,
    and [render] writes them out. *)
Example render_on_a_tty :
  (self <- __init__ a_tty ;; render self (py "${BOLD}x${NORMAL}$$"))
  = Ok (ESC :: py "[1mx" ++ ESC :: py "[m$$")
  /\ (self <- __init__ a_tty ;; getattr self (py "CLEAR_LINE"))
     = Ok (PyStr (CR :: ESC :: py "[K"))
  /\ (self <- __init__ a_tty ;; getattr self (py "COLS")) = Ok (PyInt 80).
Proof. split; [|split]; reflexivity. Qed.

(** A name that is no attribute of the controller makes [render] raise,
    also when a substitution before it gave no string: the function is
    called on every match before the pieces are joined. *)
Lemma render_unknown_name_raises :
  (self <- __init__ not_a_tty ;; render self (py "${FOO}"))
  = Raise (AttributeError (py "FOO"))
  /\ (self <- __init__ not_a_tty ;; render self (py "${COLS}${FOO}"))
     = Raise (AttributeError (py "FOO"))
  /\ (self <- __init__ not_a_tty ;; render self (py "${COLS}"))
     = Raise TypeError
  /\ (self <- __init__ not_a_tty ;;
      render self (py "${caf" ++ [E_ACUTE] ++ py "}"))
     = Raise (AttributeError (py "caf" ++ [E_ACUTE])).
Proof. split; [|split; [|split]]; reflexivity. Qed.

(** C8. A controller built on a stream that is no terminal has no
    attribute of its own: every capability field reads as the empty string
    of the class, and [${BOLD}x${NORMAL}] renders as [x]. *)
Theorem non_tty_controller_is_plain (t : terminal) :
  isatty t = false ->
  __init__ t = Ok []
  /\ (forall name, In name CAPABILITY_FIELDS ->
                   (self <- __init__ t ;; getattr self name) = Ok (PyStr []))
  /\ (self <- __init__ t ;; render self (py "${BOLD}x${NORMAL}"))
     = Ok (py "x").
Proof.
  intros Htty.
  assert (E : __init__ t = Ok []) by (unfold __init__; now rewrite Htty).
  rewrite E. split; [reflexivity|]. split; [|reflexivity].
  intros name Hin. destruct (capability_field_name name Hin) as (_ & _ & _ & Hd).
  cbn [bind]. unfold getattr. cbn [lookup]. now rewrite Hd.
Qed.

Lemma non_tty_controller_is_plain_witness :
  __init__ not_a_tty = Ok []
  /\ (forall name, In name CAPABILITY_FIELDS ->
                   (self <- __init__ not_a_tty ;; getattr self name)
                   = Ok (PyStr []))
  /\ (self <- __init__ not_a_tty ;; render self (py "${BOLD}x${NORMAL}"))
     = Ok (py "x").
Proof. exact (non_tty_controller_is_plain not_a_tty eq_refl). Defined.

End TerminalControllerFacts.

(* ================================================================== *)
(** * Part III: the rest of the module *)
(* ================================================================== *)

(** ** Substitutions that rewrite one character at a time *)

Lemma char_class_progresses (p : ascii -> bool) : progresses (char_class p).
Proof.
  intros s n. unfold char_class. destruct s as [|c t]; [discriminate|].
  destruct (p c); [|discriminate]. intros [= <-]. simpl. lia.
Qed.

Lemma re_sub_char_class (p : ascii -> bool) (f : str -> str) (s : str) :
  re_sub (char_class p) (fun m => Ok (f m)) s
  = Ok (flat_map (fun c => if p c then f [c] else [c]) s).
Proof.
  induction s as [|c t IH]; [reflexivity|].
  destruct (p c) eqn:E.
  - rewrite (@re_sub_match (char_class p) _ (c :: t) 1
               (char_class_progresses p)).
    + cbn [firstn skipn bind flat_map]. rewrite IH, E. reflexivity.
    + unfold char_class. now rewrite E.
  - rewrite re_sub_cons_none by (unfold char_class; now rewrite E).
    rewrite IH. cbn [bind flat_map]. now rewrite E.
Qed.

Lemma re_sub_with_char_class (p : ascii -> bool) (f : str -> str) (s : str) :
  re_sub_with (char_class p) f s
  = flat_map (fun c => if p c then f [c] else [c]) s.
Proof. unfold re_sub_with. now rewrite re_sub_char_class. Qed.

Lemma replace_flat_map (old : ascii) (new s : str) :
  replace old new s
  = flat_map (fun c => if Ascii.eqb c old then new else [c]) s.
Proof.
  induction s as [|c t IH]; [reflexivity|].
  cbn [replace flat_map]. rewrite IH. now destruct (Ascii.eqb c old).
Qed.

Lemma flat_map_flat_map (f g : ascii -> str) (s : str) :
  flat_map f (flat_map g s) = flat_map (fun c => flat_map f (g c)) s.
Proof.
  induction s as [|c t IH]; [reflexivity|].
  cbn [flat_map]. now rewrite flat_map_app, IH.
Qed.

Lemma flat_map_singleton (f : ascii -> ascii) (s : str) :
  flat_map (fun c => [f c]) s = map f s.
Proof. induction s as [|c t IH]; [reflexivity | simpl; now rewrite IH]. Qed.

(** ** [munge_script_name] *)

Lemma munge_script_name_map (filename : str) :
  munge_script_name filename
  = py "script-" ++ map munge_char (snd (path_split filename)).
Proof.
  unfold munge_script_name, pat_nonword. rewrite re_sub_with_char_class.
  f_equal. rewrite <- flat_map_singleton. apply flat_map_ext.
  intros c. unfold munge_char. now destruct (is_word c).
Qed.

(** X1. The name [munge_script_name] gives is [script-] followed by the
    last component of the path, with every character that is no word
    character turned into an underscore: what follows the prefix has the
    length of that component and only word characters, and a component
    made of word characters is kept as it is.  A word character is one
    of [\w] as Python 3 reads it in a text pattern ([is_word]): a letter
    with an accent is kept. *)
Theorem munge_script_name_word_characters (filename : str) :
  exists name,
    munge_script_name filename = py "script-" ++ name
    /\ name = map munge_char (snd (path_split filename))
    /\ length name = length (snd (path_split filename))
    /\ forallb is_word name = true
    /\ (forallb is_word (snd (path_split filename)) = true ->
        name = snd (path_split filename)).
Proof.
  exists (map munge_char (snd (path_split filename))).
  split; [apply munge_script_name_map|]. split; [reflexivity|].
  split; [apply length_map|]. generalize (snd (path_split filename)).
  intros tail. split.
  - induction tail as [|c t IH]; [reflexivity|].
    cbn [map forallb]. rewrite IH, andb_true_r. unfold munge_char.
    destruct (is_word c) eqn:E; [exact E | reflexivity].
  - induction tail as [|c t IH]; [reflexivity|].
    cbn [map forallb]. intros H. apply andb_true_iff in H as [Hc Ht].
    rewrite (IH Ht). unfold munge_char. now rewrite Hc.
Qed.

Example munge_script_name_sample :
  munge_script_name (py "tools/my-script.py") = py "script-my_script_py"
  /\ munge_script_name (py "caf" ++ [E_ACUTE])
     = py "script-caf" ++ [E_ACUTE].
Proof. split; reflexivity. Qed.

Lemma munge_script_name_word_characters_witness :
  munge_script_name (py "bin/epydoc") = py "script-epydoc".
Proof.
  destruct (munge_script_name_word_characters (py "bin/epydoc"))
    as (name & Hresult & _ & _ & _ & Hkept).
  rewrite Hresult, (Hkept eq_refl). reflexivity.
Defined.

(** ** [decode_with_backslashreplace] *)

Lemma hex_digit_ascii (n : nat) : nat_of_ascii (hex_digit n) < 128.
Proof.
  unfold hex_digit.
  do 16 (destruct n as [|n]; [apply Nat.ltb_lt; reflexivity|]).
  apply Nat.ltb_lt. destruct n; reflexivity.
Qed.

Lemma hex_ascii (width n : nat) :
  Forall (fun cp => cp < 128) (decode_latin1 (hex width n)).
Proof.
  revert n. induction width as [|w IH]; intros n; [constructor|].
  cbn [hex]. unfold decode_latin1 in *. rewrite map_app.
  apply Forall_app. split; [apply IH|].
  constructor; [apply hex_digit_ascii | constructor].
Qed.

Lemma decode_ascii_ok (s : str) :
  Forall (fun cp => cp < 128) (decode_latin1 s) ->
  decode_ascii s = Some (decode_latin1 s).
Proof.
  induction s as [|c t IH]; [reflexivity|].
  cbn [decode_latin1 map decode_ascii]. intros H.
  apply Forall_cons_iff in H as [Hc Ht].
  apply Nat.ltb_lt in Hc. rewrite Hc. now rewrite (IH Ht).
Qed.

Lemma backslashreplace_byte_ascii (c : ascii) :
  Forall (fun cp => cp < 128) (backslashreplace_byte c).
Proof.
  unfold backslashreplace_byte.
  destruct (nat_of_ascii c <? 128) eqn:E.
  - apply Nat.ltb_lt in E. constructor; [exact E | constructor].
  - unfold decode_latin1. rewrite map_app. apply Forall_app. split.
    + repeat constructor; apply Nat.ltb_lt; reflexivity.
    + apply hex_ascii.
Qed.

Lemma encode_decode_latin1 (s : str) :
  decode_latin1 (encode_ascii_backslashreplace (decode_latin1 s))
  = flat_map backslashreplace_byte s.
Proof.
  induction s as [|c t IH]; [reflexivity|].
  unfold encode_ascii_backslashreplace, decode_latin1 in *.
  cbn [map flat_map]. rewrite map_app, IH. f_equal.
  unfold backslashreplace_byte, backslash_escape, decode_latin1.
  pose proof (nat_ascii_bounded c) as Hc.
  destruct (nat_of_ascii c <? 128) eqn:E.
  - cbn [map]. now rewrite ascii_nat_embedding.
  - apply Nat.ltb_lt in Hc. now rewrite Hc.
Qed.

Lemma backslashreplace_ascii_input (s : str) :
  Forall (fun cp => cp < 128) (decode_latin1 s) ->
  flat_map backslashreplace_byte s = decode_latin1 s.
Proof.
  induction s as [|c t IH]; [reflexivity|].
  cbn [decode_latin1 map flat_map]. intros H.
  apply Forall_cons_iff in H as [Hc Ht].
  unfold decode_latin1 in IH. rewrite (IH Ht).
  unfold backslashreplace_byte. apply Nat.ltb_lt in Hc. now rewrite Hc.
Qed.

(** X2. [decode_with_backslashreplace] returns for every byte string (its
    last [decode] never raises): the text has ASCII characters only, each
    byte below 128 standing for itself and each other byte for the four
    characters [\xNN] of its code in hexadecimal; so an ASCII string
    comes back unchanged. *)
Theorem decode_with_backslashreplace_ascii (s : str) :
  decode_with_backslashreplace s = Some (flat_map backslashreplace_byte s)
  /\ Forall (fun cp => cp < 128) (flat_map backslashreplace_byte s)
  /\ (forall c, 128 <= nat_of_ascii c ->
        backslashreplace_byte c
        = decode_latin1 [BACKSLASH; "x"%char;
                         hex_digit (nat_of_ascii c / 16);
                         hex_digit (nat_of_ascii c mod 16)])
  /\ (Forall (fun cp => cp < 128) (decode_latin1 s) ->
      decode_with_backslashreplace s = Some (decode_latin1 s)).
Proof.
  assert (Hall : Forall (fun cp => cp < 128)
                        (flat_map backslashreplace_byte s)).
  { induction s as [|c t IH]; [constructor|]. cbn [flat_map].
    apply Forall_app. split; [apply backslashreplace_byte_ascii | exact IH]. }
  assert (Hdec : decode_with_backslashreplace s
                 = Some (flat_map backslashreplace_byte s)).
  { unfold decode_with_backslashreplace.
    rewrite decode_ascii_ok; rewrite encode_decode_latin1; auto. }
  split; [exact Hdec|]. split; [exact Hall|]. split.
  - intros c Hc. unfold backslashreplace_byte.
    apply Nat.ltb_ge in Hc. rewrite Hc. cbn [hex app py list_ascii_of_string].
    do 3 f_equal.
    pose proof (nat_ascii_bounded c) as Hb.
    rewrite (Nat.mod_small (nat_of_ascii c / 16) 16); [reflexivity|].
    apply Nat.Div0.div_lt_upper_bound. lia.
  - intros Hascii. rewrite Hdec. f_equal.
    now apply backslashreplace_ascii_input.
Qed.

(** The sample of the docstring: [abc\xff\xe8]. *)
Example decode_with_backslashreplace_sample :
  decode_with_backslashreplace (py "abc" ++ [ascii_of_nat 255; ascii_of_nat 232])
  = Some (decode_latin1 (py "abc\xff\xe8")).
Proof. reflexivity. Qed.

Lemma decode_with_backslashreplace_ascii_witness :
  decode_with_backslashreplace (py "abc") = Some (decode_latin1 (py "abc")).
Proof.
  apply (proj2 (proj2 (proj2 (decode_with_backslashreplace_ascii (py "abc"))))).
  repeat (constructor; [apply Nat.ltb_lt; reflexivity|]). constructor.
Defined.

(** ** [plaintext_to_html], again *)

Lemma plaintext_to_html_flat_map (s : str) :
  plaintext_to_html s = flat_map html_escape_char s.
Proof.
  induction s as [|c t IH]; [reflexivity|].
  rewrite plaintext_to_html_cons, IH. reflexivity.
Qed.

Lemma mem_flat_map_false (x : ascii) (f : ascii -> str) (s : str) :
  (forall c, mem x (f c) = false) -> mem x (flat_map f s) = false.
Proof.
  intros Hf. induction s as [|c t IH]; [reflexivity|].
  cbn [flat_map]. now rewrite mem_app, Hf, IH.
Qed.

(** Case analysis on a character, for facts checked on all 256. *)
Ltac each_char c := destruct c as [[] [] [] [] [] [] [] []].

(** X3. The text [plaintext_to_html] returns holds no [<], no [>] and no
    double quote, whatever the input. *)
Theorem plaintext_to_html_markup_free (s : str) :
  mem "<" (plaintext_to_html s) = false
  /\ mem ">" (plaintext_to_html s) = false
  /\ mem DQUOTE (plaintext_to_html s) = false.
Proof.
  rewrite plaintext_to_html_flat_map.
  repeat split; apply mem_flat_map_false; intros c; each_char c;
    reflexivity.
Qed.

Lemma html_escape_char_nonempty (c : ascii) : html_escape_char c <> [].
Proof. each_char c; discriminate. Qed.

(** An entity, or a character that is none, is read back in one way. *)
Lemma html_escape_char_prefix (c1 c2 : ascii) (r1 r2 : str) :
  html_escape_char c1 ++ r1 = html_escape_char c2 ++ r2 ->
  c1 = c2 /\ r1 = r2.
Proof.
  unfold html_escape_char.
  destruct (Ascii.eqb c1 "&") eqn:A1;
    [apply Ascii.eqb_eq in A1; subst c1|];
    (destruct (Ascii.eqb c2 "&") eqn:A2;
     [apply Ascii.eqb_eq in A2; subst c2|]).
  - intros H. split; [reflexivity | now apply app_inv_head in H].
  - destruct (Ascii.eqb c2 DQUOTE) eqn:Q2;
      [|destruct (Ascii.eqb c2 "<") eqn:L2;
        [|destruct (Ascii.eqb c2 ">") eqn:G2]];
      intros H; try discriminate H.
    injection H as E _. subst c2. discriminate A2.
  - destruct (Ascii.eqb c1 DQUOTE) eqn:Q1;
      [|destruct (Ascii.eqb c1 "<") eqn:L1;
        [|destruct (Ascii.eqb c1 ">") eqn:G1]];
      intros H; try discriminate H.
    injection H as E _. subst c1. discriminate A1.
  - destruct (Ascii.eqb c1 DQUOTE) eqn:Q1;
      [apply Ascii.eqb_eq in Q1; subst c1
      |destruct (Ascii.eqb c1 "<") eqn:L1;
       [apply Ascii.eqb_eq in L1; subst c1
       |destruct (Ascii.eqb c1 ">") eqn:G1;
        [apply Ascii.eqb_eq in G1; subst c1|]]];
      (destruct (Ascii.eqb c2 DQUOTE) eqn:Q2;
       [apply Ascii.eqb_eq in Q2; subst c2
       |destruct (Ascii.eqb c2 "<") eqn:L2;
        [apply Ascii.eqb_eq in L2; subst c2
        |destruct (Ascii.eqb c2 ">") eqn:G2;
         [apply Ascii.eqb_eq in G2; subst c2|]]]);
      intros H; try discriminate H;
      try (split; [reflexivity | now apply app_inv_head in H]);
      try (injection H as E _; subst; discriminate).
    injection H as E1 E2. now subst.
Qed.

(** X4. [plaintext_to_html] loses nothing: two texts with the same
    escaped form are the same text. *)
Theorem plaintext_to_html_injective (s1 s2 : str) :
  plaintext_to_html s1 = plaintext_to_html s2 -> s1 = s2.
Proof.
  rewrite !plaintext_to_html_flat_map. revert s2.
  induction s1 as [|c1 t1 IH]; intros [|c2 t2] H.
  - reflexivity.
  - cbn [flat_map] in H. symmetry in H. apply app_eq_nil in H as [H _].
    now apply html_escape_char_nonempty in H.
  - cbn [flat_map] in H. apply app_eq_nil in H as [H _].
    now apply html_escape_char_nonempty in H.
  - cbn [flat_map] in H. apply html_escape_char_prefix in H as [-> H].
    f_equal. now apply IH.
Qed.

Lemma plaintext_to_html_injective_witness :
  py "a<b" = py "a<b".
Proof.
  exact (plaintext_to_html_injective (py "a<b") (py "a<b") eq_refl).
Defined.

(** ** [plaintext_to_latex] *)

Lemma replace_repeat_other (old : ascii) (new : str) (c : ascii) (n : nat) :
  Ascii.eqb c old = false -> replace old new (repeat c n) = repeat c n.
Proof.
  intros H. induction n as [|n IH]; [reflexivity|].
  cbn [repeat replace]. now rewrite H, IH.
Qed.

(** Putting [\0] for the backslashes moves no tab stop. *)
Lemma expandtabs_from_replace_backslash (tabsize : nat) (s : str) :
  forall col,
    expandtabs_from tabsize col (replace BACKSLASH [NUL] s)
    = replace BACKSLASH [NUL] (expandtabs_from tabsize col s).
Proof.
  induction s as [|c t IH]; intros col; [reflexivity|].
  cbn [replace]. destruct (Ascii.eqb c BACKSLASH) eqn:E.
  - apply Ascii.eqb_eq in E. subst c. cbn [app expandtabs_from].
    change (Ascii.eqb NUL TAB) with false.
    change (Ascii.eqb BACKSLASH TAB) with false.
    change (Ascii.eqb NUL NL || Ascii.eqb NUL CR) with false.
    change (Ascii.eqb BACKSLASH NL || Ascii.eqb BACKSLASH CR) with false.
    cbv iota. rewrite IH. cbn [replace].
    change (Ascii.eqb BACKSLASH BACKSLASH) with true. reflexivity.
  - cbn [expandtabs_from]. destruct (Ascii.eqb c TAB) eqn:Etab.
    + rewrite replace_app, replace_repeat_other by reflexivity.
      now rewrite IH.
    + destruct (Ascii.eqb c NL || Ascii.eqb c CR);
        cbn [replace]; now rewrite E, IH.
Qed.

Lemma mem_flat_map_other (x : ascii) (f : ascii -> str) (s : str) :
  (forall c, Ascii.eqb x c = false -> mem x (f c) = false) ->
  mem x s = false -> mem x (flat_map f s) = false.
Proof.
  intros Hf. induction s as [|c t IH]; [reflexivity|].
  intros H. cbn [mem existsb] in H.
  apply orb_false_iff in H as [Hc Ht]. cbn [flat_map].
  rewrite mem_app, (Hf c Hc). now apply IH.
Qed.

(** The steps after the tabs are expanded, character by character. *)
Lemma latex_steps (nbsp : bool) (u : str) :
  (let s := re_sub_with pat_latex_special (fun m => BACKSLASH :: m) u in
   let s := replace "|" (py "{\textbar}") s in
   let s := replace "<" (py "{\textless}") s in
   let s := replace ">" (py "{\textgreater}") s in
   let s := replace "^" (py "{\textasciicircum}") s in
   let s := replace "~" (py "{\textasciitilde}") s in
   let s := replace NUL (py "{\textbackslash}") s in
   if nbsp then replace SP (py "~") s else s)
  = flat_map (fun c =>
                if Ascii.eqb c BACKSLASH then [c]
                else latex_char nbsp false c) u.
Proof.
  cbv zeta. unfold pat_latex_special.
  rewrite re_sub_with_char_class.
  destruct nbsp; rewrite !replace_flat_map, !flat_map_flat_map;
    apply flat_map_ext; intros c; each_char c; reflexivity.
Qed.

(** X5. Without hyphenation marks, [plaintext_to_latex] expands the tabs
    and then writes each character on its own: a backslash (or a [\0])
    as [{\textbackslash}], each of [#$&%_{}] behind a backslash, each of
    [|<>^~] as its named macro, a blank as [~] when [nbsp] is set, and
    any other character as it is.  No macro it wrote is escaped again. *)
Theorem plaintext_to_latex_escapes_once (s : str) (nbsp : Z) :
  plaintext_to_latex s nbsp 0
  = flat_map (latex_char (flag nbsp) false) (expandtabs s).
Proof.
  unfold plaintext_to_latex. change (flag 0) with false. cbv iota.
  unfold expandtabs. rewrite expandtabs_from_replace_backslash.
  fold (expandtabs s). rewrite (latex_steps (flag nbsp)).
  rewrite replace_flat_map, flat_map_flat_map.
  apply flat_map_ext. intros c. destruct (flag nbsp); each_char c;
    reflexivity.
Qed.

(** The first two steps with the marks put in, character by character. *)
Lemma latex_marks (s : str) :
  replace BACKSLASH [NUL] (re_sub_with pat_dot (fun m => m ++ [SOH]) s)
  = flat_map (fun c => if Ascii.eqb c NL then [c]
                       else if Ascii.eqb c BACKSLASH then [NUL; SOH]
                       else [c; SOH]) s.
Proof.
  unfold pat_dot. rewrite re_sub_with_char_class, replace_flat_map.
  rewrite flat_map_flat_map. apply flat_map_ext.
  intros c. each_char c; reflexivity.
Qed.

(** X6. On a text with no tab, [plaintext_to_latex] with hyphenation
    marks writes each character as without them and puts [\-] after
    every character but a newline; a character [\1] of the text becomes
    [\-] as well. *)
Theorem plaintext_to_latex_breakany (s : str) (nbsp breakany : Z) :
  mem TAB s = false ->
  plaintext_to_latex s nbsp breakany
  = flat_map (latex_char (flag nbsp) (flag breakany)) s.
Proof.
  intros Htab. destruct (flag breakany) eqn:Eb.
  - unfold plaintext_to_latex. rewrite Eb. rewrite latex_marks.
    unfold expandtabs. rewrite expandtabs_from_no_tab.
    2:{ apply mem_flat_map_other; [|exact Htab].
        intros c Hc. each_char c; try reflexivity; discriminate Hc. }
    rewrite (latex_steps (flag nbsp)).
    rewrite replace_flat_map, !flat_map_flat_map.
    apply flat_map_ext. intros c. destruct (flag nbsp); each_char c;
      reflexivity.
  - assert (breakany = 0%Z) as ->.
    { unfold flag in Eb. apply negb_false_iff in Eb. now apply Z.eqb_eq. }
    unfold plaintext_to_latex. change (flag 0) with false. cbv iota.
    unfold expandtabs. rewrite expandtabs_from_replace_backslash.
    rewrite (expandtabs_from_no_tab _ _ Htab).
    rewrite (latex_steps (flag nbsp)).
    rewrite replace_flat_map, flat_map_flat_map.
    apply flat_map_ext. intros c. destruct (flag nbsp); each_char c;
      reflexivity.
Qed.

Lemma plaintext_to_latex_breakany_witness :
  plaintext_to_latex (py "a_b c") 1 1 = py "a\-\_\-b\-~\-c\-".
Proof.
  exact (plaintext_to_latex_breakany (py "a_b c") 1 1 eq_refl).
Defined.

(** ** [wordwrap], again *)

Lemma nonspace_app (a b : str) : nonspace (a ++ b) = nonspace a ++ nonspace b.
Proof. apply filter_app. Qed.

Lemma nonspace_cons (c : ascii) (t : str) :
  nonspace (c :: t) = if isspace c then nonspace t else c :: nonspace t.
Proof. unfold nonspace. cbn [filter]. now destruct (isspace c). Qed.

Lemma nonspace_blank (s : str) : forallb isspace s = true -> nonspace s = [].
Proof.
  induction s as [|c t IH]; [reflexivity|].
  cbn [forallb]. intros H. apply andb_true_iff in H as [Hc Ht].
  unfold nonspace in *. cbn [filter]. rewrite Hc. now apply IH.
Qed.

Lemma nonspace_repeat_SP (n : nat) : nonspace (repeat SP n) = [].
Proof. induction n as [|n IH]; [reflexivity | exact IH]. Qed.

Lemma nonspace_expandtabs_from (tabsize : nat) (s : str) :
  forall col, nonspace (expandtabs_from tabsize col s) = nonspace s.
Proof.
  induction s as [|c t IH]; intros col; [reflexivity|].
  cbn [expandtabs_from]. destruct (Ascii.eqb c TAB) eqn:Etab.
  - apply Ascii.eqb_eq in Etab. subst c.
    rewrite nonspace_app, nonspace_repeat_SP, IH. reflexivity.
  - destruct (Ascii.eqb c NL || Ascii.eqb c CR);
      now rewrite !nonspace_cons, IH.
Qed.

Lemma nonspace_rstrip (s : str) : nonspace (rstrip s) = nonspace s.
Proof.
  induction s as [|c t IH]; [reflexivity|].
  rewrite rstrip_cons, (nonspace_cons c t), <- IH.
  destruct (rstrip t) as [|x r].
  - destruct (isspace c) eqn:E; [reflexivity|].
    now rewrite nonspace_cons, E.
  - now rewrite (nonspace_cons c (x :: r)).
Qed.

Lemma pat_blank_or_splitchar_progresses (splitchars : str) :
  progresses (pat_blank_or_splitchar splitchars).
Proof.
  intros s n. unfold pat_blank_or_splitchar.
  destruct (pat_blank s) as [k|] eqn:E.
  - intros [= <-]. exact (pat_blank_progresses _ _ E).
  - match goal with
    | |- context [nth_error s ?r] => set (run := r)
    end.
    destruct (nth_error s run) as [c|] eqn:En; [|discriminate].
    destruct (mem c splitchars); [|discriminate]. intros [= <-].
    assert (run < length s) by (apply nth_error_Some; congruence). lia.
Qed.

Lemma wordwrap_chunks_concat (s splitchars : str) :
  concat (wordwrap_chunks s splitchars) = expandtabs s.
Proof.
  unfold wordwrap_chunks. destruct splitchars.
  - apply concat_re_split, pat_blank_progresses.
  - apply concat_re_split, pat_blank_or_splitchar_progresses.
Qed.

Lemma starts_plain_snoc (seg : str) (c : ascii) :
  starts_plain seg = true ->
  Ascii.eqb c SP = false -> Ascii.eqb c NL = false ->
  starts_plain (seg ++ [c]) = true.
Proof.
  intros Hseg Hsp Hnl. destruct seg as [|x seg]; [|exact Hseg].
  cbn. now rewrite Hsp, Hnl.
Qed.

Lemma pat_blank_none (c : ascii) (t : str) :
  pat_blank (c :: t) = None ->
  Ascii.eqb c SP = false /\ Ascii.eqb c NL = false.
Proof.
  unfold pat_blank. destruct (Ascii.eqb c SP); [discriminate|].
  destruct (Ascii.eqb c NL); [discriminate|]. auto.
Qed.

Lemma pat_blank_some (s : str) (n : nat) :
  pat_blank s = Some n ->
  firstn n s = [NL] \/ (forallb (Ascii.eqb SP) (firstn n s) = true).
Proof.
  unfold pat_blank. destruct s as [|c t]; [discriminate|].
  destruct (Ascii.eqb c SP) eqn:Esp.
  - intros E. assert (n = span_len (Ascii.eqb SP) (c :: t)) by congruence.
    subst n. right. apply span_len_forallb.
  - destruct (Ascii.eqb c NL) eqn:Enl; [|discriminate].
    intros [= <-]. left. apply Ascii.eqb_eq in Enl. now subst.
Qed.

Lemma blanks_are_space (s : str) :
  forallb (Ascii.eqb SP) s = true -> forallb isspace s = true.
Proof.
  induction s as [|c t IH]; [reflexivity|]. cbn [forallb]. intros H.
  apply andb_true_iff in H as [Hc Ht]. apply Ascii.eqb_eq in Hc. subst c.
  now rewrite (IH Ht).
Qed.

(** A chunk that starts with a blank or a newline is white space. *)
Lemma wordwrap_chunks_blank_or_plain (s splitchars : str) :
  Forall (fun chunk => starts_plain chunk = true
                       \/ forallb isspace chunk = true)
         (wordwrap_chunks s splitchars).
Proof.
  unfold wordwrap_chunks, re_split. destruct splitchars as [|x splitchars].
  - apply re_split_from_Forall
      with (Pseg := fun seg => starts_plain seg = true);
      auto using pat_blank_progresses.
    + intros seg c t Hseg E. apply pat_blank_none in E as [Hsp Hnl].
      now apply starts_plain_snoc.
    + intros u n E. right.
      destruct (pat_blank_some _ _ E) as [-> | H]; [reflexivity|].
      now apply blanks_are_space.
  - set (sc := x :: splitchars).
    apply re_split_from_Forall
      with (Pseg := fun seg => starts_plain seg = true);
      auto using pat_blank_or_splitchar_progresses.
    + intros seg c t Hseg E. unfold pat_blank_or_splitchar in E.
      destruct (pat_blank (c :: t)) eqn:Eb; [discriminate|].
      apply pat_blank_none in Eb as [Hsp Hnl].
      now apply starts_plain_snoc.
    + intros u n E. unfold pat_blank_or_splitchar in E.
      destruct (pat_blank u) as [k|] eqn:Eb.
      * injection E as <-. right.
        destruct (pat_blank_some _ _ Eb) as [-> | H]; [reflexivity|].
        now apply blanks_are_space.
      * left. destruct u as [|c t]; [discriminate E|].
        apply pat_blank_none in Eb as [Hsp Hnl].
        destruct n as [|n]; [reflexivity|]. cbn. now rewrite Hsp, Hnl.
Qed.

Lemma wrap_loop_nonspace (indent right : Z) (chunks : list str) :
  Forall (fun chunk => starts_plain chunk = true
                       \/ forallb isspace chunk = true) chunks ->
  forall charindex result,
    nonspace (concat (wrap_loop indent right chunks charindex result))
    = nonspace (concat result) ++ nonspace (concat chunks).
Proof.
  induction chunks as [|chunk rest IH]; intros Hshape charindex result.
  - simpl. now rewrite app_nil_r.
  - apply Forall_cons_iff in Hshape as [Hchunk Hrest].
    cbn [wrap_loop concat]. rewrite nonspace_app.
    assert (Hbreak : nonspace (NL :: spaces indent) = [])
      by (apply nonspace_blank; cbn [forallb]; now rewrite spaces_blank).
    destruct (((charindex + len chunk >? right)%Z && (charindex >? 0)%Z)
              || str_eqb chunk [NL]).
    + destruct (starts_plain chunk) eqn:Eplain.
      * rewrite (IH Hrest), !concat_snoc, !nonspace_app, Hbreak.
        now rewrite app_nil_r, <- app_assoc.
      * destruct Hchunk as [H | H]; [discriminate H|].
        rewrite (IH Hrest), concat_snoc, nonspace_app, Hbreak.
        now rewrite (nonspace_blank chunk H), app_nil_r.
    + rewrite (IH Hrest), concat_snoc, nonspace_app.
      now rewrite <- app_assoc.
Qed.

(** X7. [wordwrap] changes white space only: whatever the margins, the
    start column and the split characters, the characters of the result
    that are no white space are those of the input, in the same order. *)
Theorem wordwrap_keeps_nonspace
        (s : str) (indent right startindex : Z) (splitchars : str) :
  nonspace (wordwrap s indent right startindex splitchars) = nonspace s.
Proof.
  unfold wordwrap. rewrite nonspace_app, nonspace_rstrip.
  rewrite wrap_loop_nonspace by apply wordwrap_chunks_blank_or_plain.
  rewrite wordwrap_chunks_concat. cbn [concat].
  change (nonspace [NL]) with ([] : str). rewrite !app_nil_r.
  rewrite (nonspace_blank (spaces (indent - startindex)))
    by apply spaces_blank.
  unfold expandtabs. now rewrite nonspace_expandtabs_from.
Qed.

Lemma firstn_succ_nth (l : str) :
  forall n c, nth_error l n = Some c -> firstn (S n) l = firstn n l ++ [c].
Proof.
  induction l as [|x l IH]; intros [|n] c H; try discriminate H.
  - injection H as <-. reflexivity.
  - cbn [nth_error] in H. cbn [firstn app]. f_equal.
    exact (IH n c H).
Qed.

(** With split characters, none of them a newline, a chunk is a newline
    or holds none. *)
Lemma wordwrap_chunks_shape_splitchars (s splitchars : str) :
  mem NL splitchars = false ->
  Forall (fun chunk => chunk = [NL] \/ mem NL chunk = false)
         (wordwrap_chunks s splitchars).
Proof.
  intros Hsc. destruct splitchars as [|x splitchars];
    [apply wordwrap_chunks_shape|].
  set (sc := x :: splitchars) in *.
  unfold wordwrap_chunks, sc, re_split. fold sc.
  apply re_split_from_Forall with (Pseg := fun seg => mem NL seg = false);
    auto using pat_blank_or_splitchar_progresses.
  - intros seg c t Hseg E. unfold pat_blank_or_splitchar in E.
    destruct (pat_blank (c :: t)) eqn:Eb; [discriminate|].
    apply pat_blank_none in Eb as [_ Hnl]. now apply mem_snoc_false.
  - intros u n E. unfold pat_blank_or_splitchar in E.
    destruct (pat_blank u) as [k|] eqn:Eb.
    + injection E as <-.
      destruct (pat_blank_some _ _ Eb) as [-> | H]; [now left | right].
      now apply mem_false_of_forallb with (p := Ascii.eqb SP).
    + right.
      match type of E with
      | context [nth_error u ?r] => set (run := r) in *
      end.
      destruct (nth_error u run) as [c|] eqn:En; [|discriminate].
      destruct (mem c sc) eqn:Ec; [|discriminate]. injection E as <-.
      rewrite (firstn_succ_nth u run c En).
      rewrite mem_app. apply orb_false_iff. split.
      * apply mem_false_of_forallb
          with (p := fun c => negb (Ascii.eqb c SP || Ascii.eqb c NL
                                    || mem c sc)).
        -- cbn. reflexivity.
        -- apply span_len_forallb.
      * cbn [mem existsb]. rewrite orb_false_r.
        destruct (Ascii.eqb NL c) eqn:E1; [|reflexivity].
        apply Ascii.eqb_eq in E1. subst c. congruence.
Qed.

(** X8. The bound on the lines holds with split characters too, as long
    as the newline is none of them: for margins [0 <= indent < right] and
    [startindex = 0], every line of the result has at most [right]
    characters, unless it is the indentation followed by a single chunk
    (a chunk now also ends after each split character). *)
Theorem wordwrap_splitchars_lines_within_right
        (s : str) (indent right : Z) (splitchars : str) :
  (0 <= indent < right)%Z ->
  mem NL splitchars = false ->
  Forall (fine_line right indent (wordwrap_chunks s splitchars))
         (lines (wordwrap s indent right 0 splitchars)).
Proof.
  intros Hm Hsc. unfold wordwrap.
  set (chunks := wordwrap_chunks s splitchars).
  set (j := concat (wrap_loop indent right chunks (Z.max indent 0)
                              [spaces (indent - 0)])).
  assert (Hj : Forall (fine_line right indent chunks) (lines j)).
  { unfold j.
    apply wrap_loop_lines with (done := []) (cur := spaces indent).
    - exact Hm.
    - apply incl_refl.
    - now apply wordwrap_chunks_shape_splitchars.
    - rewrite Z.sub_0_r. cbn [concat]. rewrite app_nil_r.
      apply lines_single. apply mem_spaces_NL.
    - constructor.
    - left. rewrite len_spaces; lia.
    - rewrite len_spaces; lia.
    - lia. }
  rewrite lines_snoc_NL.
  destruct (lines_rstrip j) as (pre & l & post & Hlines & ->).
  rewrite Hlines in Hj. apply Forall_app in Hj as [Hpre Hrest].
  apply Forall_cons_iff in Hrest as [Hl _].
  apply Forall_app. split.
  - apply Forall_app. split; [exact Hpre|]. constructor; [|constructor].
    now apply fine_rstrip.
  - constructor; [|constructor]. apply fine_nil. exact Hm.
Qed.

(** A path wrapped at its slashes. *)
Example wordwrap_path_sample :
  wordwrap (py "/usr/local/lib/python") 0 10 0 (py "/")
  = py "/usr/" ++ [NL] ++ py "local/lib/" ++ [NL] ++ py "python" ++ [NL].
Proof. reflexivity. Qed.

Lemma wordwrap_splitchars_lines_within_right_witness :
  Forall (fine_line 10 0 (wordwrap_chunks (py "/usr/local/lib/python")
                                          (py "/")))
         (lines (wordwrap (py "/usr/local/lib/python") 0 10 0 (py "/"))).
Proof.
  apply (wordwrap_splitchars_lines_within_right
           (py "/usr/local/lib/python") 0 10 (py "/")).
  - lia.
  - reflexivity.
Defined.

(** ** The indentation of the lines [wordwrap] starts *)

Lemma tl_app_nonempty (A : Type) (l x : list A) :
  l <> [] -> tl (l ++ x) = tl l ++ x.
Proof. destruct l; [congruence | reflexivity]. Qed.

Lemma Forall_tl_snoc (P : str -> Prop) (done : list str) (cur cur' : str) :
  Forall P (tl (done ++ [cur])) -> (P cur -> P cur') ->
  Forall P (tl (done ++ [cur'])).
Proof.
  destruct done as [|d done]; [constructor|]. cbn [app tl].
  intros H Himp. apply Forall_app in H as [Hdone Hcur].
  apply Forall_app. split; [exact Hdone|].
  apply Forall_cons_iff in Hcur as [Hcur _]. constructor; auto.
Qed.

(** The invariant of the loop: every line but the first starts with the
    indentation. *)
Lemma wrap_loop_indented (indent right : Z) (chunks : list str) :
  Forall (fun chunk => chunk = [NL] \/ mem NL chunk = false) chunks ->
  forall charindex result done cur,
    lines (concat result) = done ++ [cur] ->
    Forall (indented indent) (tl (done ++ [cur])) ->
    Forall (indented indent)
           (tl (lines (concat (wrap_loop indent right chunks
                                         charindex result)))).
Proof.
  induction chunks as [|chunk rest IH];
    intros Hshape charindex result done cur Hlines Htl.
  - cbn [wrap_loop]. now rewrite Hlines.
  - apply Forall_cons_iff in Hshape as [Hchunk Hshape].
    assert (Hgrow : forall cur0 done0,
               Forall (indented indent) (tl (done0 ++ [cur0])) ->
               Forall (indented indent) (tl (done0 ++ [cur0 ++ chunk]))).
    { intros cur0 done0 H. apply (Forall_tl_snoc _ _ _ _ H).
      intros [m ->]. exists (m ++ chunk). now rewrite app_assoc. }
    cbn [wrap_loop].
    destruct (((charindex + len chunk >? right)%Z && (charindex >? 0)%Z)
              || str_eqb chunk [NL]) eqn:Ebreak.
    + assert (Hlines' : lines (concat (result ++ [NL :: spaces indent]))
                        = (done ++ [cur]) ++ [spaces indent]).
      { rewrite concat_snoc. apply lines_snoc_break; [exact Hlines|].
        apply mem_spaces_NL. }
      assert (Htl' : Forall (indented indent)
                            (tl ((done ++ [cur]) ++ [spaces indent]))).
      { rewrite tl_app_nonempty by (now destruct done).
        apply Forall_app. split; [exact Htl|].
        constructor; [|constructor]. exists []. now rewrite app_nil_r. }
      destruct (starts_plain chunk) eqn:Eplain.
      * assert (Hnl : mem NL chunk = false).
        { destruct Hchunk as [-> | H]; [discriminate Eplain | exact H]. }
        apply IH with (done := done ++ [cur])
                      (cur := spaces indent ++ chunk); auto.
        rewrite concat_snoc. now apply lines_snoc_chunk.
      * now apply IH with (done := done ++ [cur]) (cur := spaces indent).
    + apply orb_false_iff in Ebreak as [_ Enl].
      assert (Hnl : mem NL chunk = false).
      { destruct Hchunk as [-> | H]; [discriminate Enl | exact H]. }
      apply IH with (done := done) (cur := cur ++ chunk); auto.
      rewrite concat_snoc. now apply lines_snoc_chunk.
Qed.

Lemma lines_last_empty (x : str) :
  forall pre, pre <> [] -> lines x = pre ++ [[]] -> exists b, x = b ++ [NL].
Proof.
  induction x as [|c t IH]; intros pre Hpre H.
  - destruct pre as [|p [|q pre]]; [congruence | discriminate | discriminate].
  - destruct (Ascii.eqb c NL) eqn:Ec.
    + apply Ascii.eqb_eq in Ec. subst c. rewrite lines_cons_NL in H.
      destruct pre as [|p pre]; [congruence|].
      injection H as _ H. destruct pre as [|q pre].
      * apply lines_single_nil in H. subst t. now exists [].
      * destruct (IH (q :: pre)) as [b ->]; [discriminate | exact H|].
        now exists (NL :: b).
    + destruct (lines_cons_other c t Ec) as (l & ls & E1 & E2).
      rewrite E2 in H. destruct pre as [|p pre]; [congruence|].
      injection H as _ H.
      destruct (IH (l :: pre)) as [b ->]; [discriminate | |].
      * rewrite E1. cbn [app]. now f_equal.
      * now exists (c :: b).
Qed.

Lemma rstrip_app_keep (a m : str) :
  rstrip m <> [] -> rstrip (a ++ m) = a ++ rstrip m.
Proof.
  intros Hm. induction a as [|x a IH]; [reflexivity|].
  cbn [app]. rewrite rstrip_cons, IH.
  destruct (a ++ rstrip m) eqn:E; [|reflexivity].
  apply app_eq_nil in E as [_ E]. congruence.
Qed.

Lemma rstrip_app_blank (a m : str) :
  rstrip m = [] -> rstrip (a ++ m) = rstrip a.
Proof.
  intros Hm. induction a as [|x a IH]; [exact Hm|].
  cbn [app]. now rewrite !rstrip_cons, IH.
Qed.

(** X9. Every line of the result after the first starts with [indent]
    blanks (the empty line behind the last newline apart), whatever the
    margins and the start column, as long as the newline is no split
    character. *)
Theorem wordwrap_lines_indented
        (s : str) (indent right startindex : Z) (splitchars : str) :
  mem NL splitchars = false ->
  exists first rest,
    lines (wordwrap s indent right startindex splitchars)
    = first :: rest ++ [[]]
    /\ Forall (indented indent) rest.
Proof.
  intros Hsc. unfold wordwrap.
  set (j := concat (wrap_loop indent right (wordwrap_chunks s splitchars)
                              (Z.max indent startindex)
                              [spaces (indent - startindex)])).
  assert (Hj : Forall (indented indent) (tl (lines j))).
  { unfold j.
    apply wrap_loop_indented
      with (done := []) (cur := spaces (indent - startindex)).
    - now apply wordwrap_chunks_shape_splitchars.
    - cbn [concat]. rewrite app_nil_r. apply lines_single, mem_spaces_NL.
    - constructor. }
  rewrite lines_snoc_NL.
  destruct (lines_rstrip j) as (pre & l & post & Hlines & Hstrip).
  rewrite Hstrip, Hlines in *. destruct pre as [|p pre].
  - exists (rstrip l), []. split; [reflexivity | constructor].
  - exists p, (pre ++ [rstrip l]). split; [reflexivity|].
    cbn [app tl] in Hj. apply Forall_app in Hj as [Hpre Hl].
    apply Forall_cons_iff in Hl as [[m ->] _].
    apply Forall_app. split; [exact Hpre|]. constructor; [|constructor].
    destruct (rstrip m) as [|y r] eqn:Em.
    + exfalso.
      rewrite (rstrip_app_blank _ m Em) in Hstrip.
      rewrite (rstrip_blank _ (spaces_blank indent)) in Hstrip.
      destruct (lines_last_empty (rstrip j) (p :: pre)) as [b Hb];
        [discriminate | exact Hstrip|].
      apply rstrip_last in Hb. discriminate Hb.
    + exists (y :: r). rewrite <- Em. apply rstrip_app_keep. congruence.
Qed.

Lemma wordwrap_lines_indented_witness :
  exists first rest,
    lines (wordwrap (py "abcdefgh ij kl") 2 5 3 []) = first :: rest ++ [[]]
    /\ Forall (indented 2) rest.
Proof.
  exact (wordwrap_lines_indented (py "abcdefgh ij kl") 2 5 3 [] eq_refl).
Defined.

Example wordwrap_startindex_sample :
  wordwrap (py "abcdefgh ij kl") 2 5 3 []
  = [NL] ++ py "  abcdefgh" ++ [NL] ++ py "  ij " ++ [NL] ++ py "  kl" ++ [NL].
Proof. reflexivity. Qed.

(** ** Source file names, again *)

(** [splitext] cuts the name in two and loses nothing. *)
Lemma splitext_app (p : str) : fst (splitext p) ++ snd (splitext p) = p.
Proof.
  unfold splitext. destruct (rfind p "." >? rfind p "/")%Z.
  - destruct (existsb _ _); cbn [fst snd].
    + apply firstn_skipn.
    + apply app_nil_r.
  - apply app_nil_r.
Qed.

(** X10. A name [py_src_filename] returns ends in [.py] or [.pyw], and is
    the name it was given or the name of a file that exists. *)
Theorem py_src_filename_returns_source
        (isfile : str -> bool) (repr : str -> str) (filename r : str) :
  py_src_filename isfile repr filename = Ok r ->
  (exists stem, r = stem ++ py ".py" \/ r = stem ++ py ".pyw")
  /\ (r = filename \/ isfile r = true).
Proof.
  unfold py_src_filename. pose proof (splitext_app filename) as Happ.
  destruct (splitext filename) as [basefile extension]. cbn [fst snd] in Happ.
  destruct (str_in extension PY_SRC_EXTENSIONS) eqn:Eext.
  - intros [= <-]. split; [|now left]. exists basefile.
    apply str_in_In in Eext. rewrite <- Happ.
    destruct Eext as [<- | [<- | []]]; [now left | now right].
  - unfold PY_SRC_EXTENSIONS, first_source_file.
    destruct (isfile (basefile ++ py ".py")) eqn:E1.
    { intros [= <-]. split; [exists basefile; now left | now right]. }
    destruct (isfile (basefile ++ py ".pyw")) eqn:E2.
    { intros [= <-]. split; [exists basefile; now right | now right]. }
    discriminate.
Qed.

Lemma py_src_filename_returns_source_witness :
  (exists stem, py "pkg/mod.py" = stem ++ py ".py"
                \/ py "pkg/mod.py" = stem ++ py ".pyw")
  /\ (py "pkg/mod.py" = py "pkg/mod.pyc"
      \/ isfile one_source_fs (py "pkg/mod.py") = true).
Proof.
  exact (py_src_filename_returns_source (isfile one_source_fs) quote_repr
           (py "pkg/mod.pyc") (py "pkg/mod.py") eq_refl).
Defined.

(** X11. A name [is_src_filename] accepts exists, and [py_src_filename]
    gives it back as it is. *)
Theorem is_src_filename_then_py_src_filename
        (fs : filesystem) (repr : str -> str) (filename : str) :
  is_src_filename fs (PyStr filename) = Ok (PyBool true) ->
  path_exists fs filename = true
  /\ py_src_filename (isfile fs) repr filename = Ok filename.
Proof.
  unfold is_src_filename, py_src_filename. cbn [as_string].
  destruct (path_exists fs filename); cbn [negb]; [|discriminate].
  intros H. split; [reflexivity|].
  assert (H' : str_in (snd (splitext filename)) PY_SRC_EXTENSIONS = true)
    by congruence.
  destruct (splitext filename) as [basefile extension]. cbn [snd] in H'.
  now rewrite H'.
Qed.

Lemma is_src_filename_then_py_src_filename_witness :
  path_exists one_source_fs (py "pkg/mod.py") = true
  /\ py_src_filename (isfile one_source_fs) quote_repr (py "pkg/mod.py")
     = Ok (py "pkg/mod.py").
Proof.
  exact (is_src_filename_then_py_src_filename one_source_fs quote_repr
           (py "pkg/mod.py") eq_refl).
Defined.

(** ** [is_pyname] on strings *)

Lemma join_dots_cons (w : str) (ws : list str) :
  join_dots (w :: ws) = w ++ flat_map (fun x => "."%char :: x) ws.
Proof.
  revert w. induction ws as [|x ws IH]; intros w.
  - simpl. now rewrite app_nil_r.
  - cbn [join_dots flat_map] in *. rewrite (IH x). reflexivity.
Qed.

Lemma firstn_add (n m : nat) (l : str) :
  firstn (n + m) l = firstn n l ++ firstn m (skipn n l).
Proof.
  revert l. induction n as [|n IH]; intros l; [reflexivity|].
  destruct l as [|x l]; [now destruct m|]. cbn. now rewrite IH.
Qed.

Lemma skipn_add (n m : nat) (l : str) :
  skipn (n + m) l = skipn m (skipn n l).
Proof.
  revert l. induction n as [|n IH]; intros l; [reflexivity|].
  destruct l as [|x l]; [now destruct m|]. cbn. now rewrite IH.
Qed.

(** A run of [p]-characters that ends the text or stops at a character
    outside [p]. *)
Lemma span_len_app_end (p : ascii -> bool) (a b : str) :
  forallb p a = true ->
  match b with [] => True | c :: _ => p c = false end ->
  span_len p (a ++ b) = length a.
Proof.
  intros Ha Hb. destruct b as [|c b].
  - rewrite app_nil_r. clear Hb. induction a as [|x a IH]; [reflexivity|].
    cbn in *. apply andb_true_iff in Ha as [Hx Ha]. now rewrite Hx, IH.
  - now apply span_len_app_stop.
Qed.

(** What [(\.\w+)*] takes is a sequence of dots, each with its name. *)
Lemma dotted_tail_sound (fuel : nat) :
  forall s, exists ws,
    Forall is_name ws
    /\ firstn (dotted_tail fuel s) s = flat_map (fun x => "."%char :: x) ws.
Proof.
  induction fuel as [|fuel IH]; intros s; [now exists []|].
  cbn [dotted_tail]. destruct s as [|c t]; [now exists []|].
  destruct (Ascii.eqb c ".") eqn:Ec; [|now exists []].
  apply Ascii.eqb_eq in Ec. subst c.
  destruct (span_len is_word t) as [|k] eqn:Ek; [now exists []|].
  destruct (IH (skipn (S k) t)) as (ws & Hws & Hfirst).
  exists (firstn (S k) t :: ws). split.
  - constructor; [|exact Hws]. split.
    + pose proof (span_len_le is_word t) as Hle. rewrite Ek in Hle.
      destruct t; [simpl in Hle; lia | discriminate].
    + rewrite <- Ek. apply span_len_forallb.
  - cbn [flat_map app]. rewrite <- Hfirst.
    change (S (S k) + dotted_tail fuel (skipn (S k) t))
      with (S (S k + dotted_tail fuel (skipn (S k) t))).
    cbn [firstn]. f_equal. apply firstn_add.
Qed.

(** [(\.\w+)*] takes all of such a sequence, when the text ends after
    it, or goes on with a newline. *)
Lemma dotted_tail_complete (ws : list str) (rest : str) :
  Forall is_name ws -> rest = [] \/ rest = [NL] ->
  forall fuel,
    length (flat_map (fun x => "."%char :: x) ws ++ rest) <= fuel ->
    dotted_tail fuel (flat_map (fun x => "."%char :: x) ws ++ rest)
    = length (flat_map (fun x => "."%char :: x) ws).
Proof.
  intros Hws Hrest. induction ws as [|w ws IH]; intros fuel Hfuel.
  - cbn [flat_map app length].
    destruct fuel; [reflexivity|]. destruct Hrest as [-> | ->]; reflexivity.
  - apply Forall_cons_iff in Hws as [[Hne Hw] Hws].
    cbn [flat_map app] in *. rewrite <- app_assoc in *.
    destruct fuel as [|fuel]; [simpl in Hfuel; lia|].
    cbn [dotted_tail]. change (Ascii.eqb "." ".") with true. cbv iota.
    assert (Hspan : span_len is_word
                      (w ++ flat_map (fun x => "."%char :: x) ws ++ rest)
                    = length w).
    { apply span_len_app_end; [exact Hw|].
      destruct ws as [|x ws]; [|reflexivity].
      destruct Hrest as [-> | ->]; [exact I | reflexivity]. }
    rewrite Hspan. destruct w as [|a w]; [congruence|].
    change (length (a :: w)) with (S (length w)). cbv iota.
    change (S (length w)) with (length (a :: w)).
    rewrite skipn_app_exact, (IH Hws).
    + cbn [length]. rewrite !length_app. cbn [length]. lia.
    + cbn [length] in Hfuel. rewrite !length_app in Hfuel.
      rewrite length_app. cbn [length] in *. lia.
Qed.

(** X12. On a string, [is_pyname] never raises, and it finds a match
    exactly when the string is a dotted name (names of word characters,
    one dot between each two), alone or followed by one newline: the [$]
    of the pattern lets a last newline through.  The word characters are
    those of [\w] as Python 3 reads it in a text pattern ([is_word]), so
    a name may hold an accented letter or a superscript digit. *)
Theorem is_pyname_dotted_names (s : str) :
  (forall name, dotted_name name -> s = name \/ s = name ++ [NL] ->
                is_pyname (PyStr s) = Ok (PyMatch name))
  /\ (forall m, is_pyname (PyStr s) = Ok (PyMatch m) ->
                dotted_name m /\ (s = m \/ s = m ++ [NL]))
  /\ (is_pyname (PyStr s) = Ok PyNone
      \/ exists m, is_pyname (PyStr s) = Ok (PyMatch m)).
Proof.
  split; [|split].
  - intros name (ws & Hne & Hws & ->) Hs.
    destruct ws as [|w ws]; [congruence|]. clear Hne.
    rewrite join_dots_cons in *.
    apply Forall_cons_iff in Hws as [[Hne Hw] Hws].
    set (tail := flat_map (fun x => "."%char :: x) ws) in *.
    assert (exists rest, (rest = [] \/ rest = [NL])
                         /\ s = w ++ tail ++ rest) as (rest & Hrest & ->).
    { destruct Hs as [-> | ->].
      - exists []. split; [now left | now rewrite app_nil_r].
      - exists [NL]. split; [now right | now rewrite <- app_assoc]. }
    cbn [is_pyname]. unfold re_match_dollar, pat_dotted_name.
    assert (Hspan : span_len is_word (w ++ tail ++ rest) = length w).
    { apply span_len_app_end; [exact Hw|]. unfold tail.
      destruct ws as [|x ws]; [|reflexivity].
      destruct Hrest as [-> | ->]; [exact I | reflexivity]. }
    rewrite Hspan. destruct w as [|a w]; [congruence|].
    change (length (a :: w)) with (S (length w)). cbv iota.
    change (S (length w)) with (length (a :: w)).
    rewrite skipn_app_exact.
    unfold tail. rewrite (dotted_tail_complete ws rest Hws Hrest).
    2:{ rewrite !length_app. lia. }
    fold tail. unfold at_dollar.
    replace (length (a :: w) + length tail)
      with (length ((a :: w) ++ tail)) by apply length_app.
    rewrite app_assoc, skipn_app_exact, firstn_app_exact.
    destruct Hrest as [-> | ->]; reflexivity.
  - intros m. cbn [is_pyname]. unfold re_match_dollar, pat_dotted_name.
    destruct (span_len is_word s) as [|k] eqn:Ek; [discriminate|].
    set (d := dotted_tail (length s) (skipn (S k) s)).
    destruct (at_dollar s (S k + d)) eqn:Edollar; [|discriminate].
    intros H. assert (m = firstn (S k + d) s) by congruence. subst m.
    clear H. split.
    + destruct (dotted_tail_sound (length s) (skipn (S k) s))
        as (ws & Hws & Hfirst).
      exists (firstn (S k) s :: ws). split; [discriminate|]. split.
      * constructor; [|exact Hws]. split.
        -- pose proof (span_len_le is_word s) as Hle. rewrite Ek in Hle.
           destruct s; [simpl in Hle; lia | discriminate].
        -- rewrite <- Ek. apply span_len_forallb.
      * rewrite join_dots_cons, <- Hfirst. apply firstn_add.
    + unfold at_dollar in Edollar.
      rewrite <- (firstn_skipn (S k + d) s) at 1 3.
      destruct (skipn (S k + d) s) as [|c [|c' u]];
        [left; now rewrite app_nil_r | right | discriminate].
      apply Ascii.eqb_eq in Edollar. now subst c.
  - cbn [is_pyname]. unfold re_match_dollar.
    destruct (pat_dotted_name s) as [n|]; [|now left].
    destruct (at_dollar s n); [right; now eexists | now left].
Qed.

Example is_pyname_samples :
  is_pyname (PyStr (py "epydoc.util")) = Ok (PyMatch (py "epydoc.util"))
  /\ is_pyname (PyStr (py "epydoc.util" ++ [NL]))
     = Ok (PyMatch (py "epydoc.util"))
  /\ is_pyname (PyStr (py "epydoc..util")) = Ok PyNone
  /\ is_pyname (PyStr (py "epydoc.util.")) = Ok PyNone
  /\ is_pyname (PyStr (py "epydoc/util.py")) = Ok PyNone
  /\ is_pyname (PyStr []) = Ok PyNone
  /\ is_pyname (PyStr (py "caf" ++ [E_ACUTE] ++ py ".x"
                       ++ [SUPERSCRIPT_TWO]))
     = Ok (PyMatch (py "caf" ++ [E_ACUTE] ++ py ".x" ++ [SUPERSCRIPT_TWO])).
Proof. repeat split. Qed.

Lemma is_pyname_dotted_names_witness :
  is_pyname (PyStr (py "os.path" ++ [NL])) = Ok (PyMatch (py "os.path")).
Proof.
  apply (proj1 (is_pyname_dotted_names (py "os.path" ++ [NL]))).
  - exists [py "os"; py "path"]. split; [discriminate|]. split.
    + repeat constructor; discriminate.
    + reflexivity.
  - right. reflexivity.
Defined.

(** ** [is_module_file] and [is_package_dir] *)

Lemma is_module_file_truthy (fs : filesystem) (path : str) :
  exists v, is_module_file fs (PyStr path) = Ok v
            /\ truthy v = module_file_test fs path.
Proof.
  unfold is_module_file, module_file_test. cbn [as_string].
  destruct (path_split path) as [dir filename]. cbn [snd].
  destruct (splitext filename) as [basename extension]. cbn [fst snd].
  eexists. split; [reflexivity|].
  destruct (isfile fs path); [|reflexivity]. cbn [and_then andb].
  unfold re_match_dollar. destruct (pat_identifier basename) as [n|];
    [|reflexivity].
  destruct (at_dollar basename n); reflexivity.
Qed.

Lemma rfind_from_app (c : ascii) (a b : str) :
  forall i found,
    rfind_from c (a ++ b) i found
    = rfind_from c b (i + len a)%Z (rfind_from c a i found).
Proof.
  induction a as [|x a IH]; intros i found.
  - cbn. now rewrite Z.add_0_r.
  - cbn [app rfind_from]. rewrite IH. f_equal.
    unfold len. cbn [length]. lia.
Qed.

Lemma rfind_from_absent (c : ascii) (b : str) :
  mem c b = false -> forall i found, rfind_from c b i found = found.
Proof.
  induction b as [|x b IH]; intros H i found; [reflexivity|].
  cbn [mem existsb] in H. apply orb_false_iff in H as [Hx Hb].
  cbn [rfind_from]. rewrite Ascii.eqb_sym, Hx. now apply IH.
Qed.

(** The last component of [prefix ++ name], for a prefix that is empty
    or ends in a slash and a name with no slash, is the name. *)
Lemma path_split_tail (prefix name : str) :
  prefix = [] \/ (exists q, prefix = q ++ py "/") ->
  mem "/" name = false ->
  snd (path_split (prefix ++ name)) = name.
Proof.
  intros Hp Hname. unfold path_split. cbn [snd]. unfold from, rfind.
  rewrite rfind_from_app, (rfind_from_absent "/" name Hname).
  assert (E : (rfind_from "/" prefix 0 (-1) + 1 = len prefix)%Z).
  { destruct Hp as [-> | [q ->]]; [reflexivity|].
    rewrite rfind_from_app, len_app.
    change (rfind_from "/" (py "/") (0 + len q) (rfind_from "/" q 0 (-1)))
      with (0 + len q)%Z.
    change (len (py "/")) with 1%Z. lia. }
  rewrite E. unfold len. rewrite Nat2Z.id. apply skipn_app_exact.
Qed.

Lemma startswith_split (s p : str) :
  startswith s p = true -> exists r, s = p ++ r.
Proof.
  revert s. induction p as [|a p IH]; intros s H; [now exists s|].
  destruct s as [|b s]; [discriminate|]. cbn [startswith] in H.
  apply andb_true_iff in H as [Hab Hs]. apply Ascii.eqb_eq in Hab. subst b.
  destruct (IH s Hs) as [r ->]. now exists r.
Qed.

Lemma path_join_name (dirname name : str) :
  mem "/" name = false ->
  exists prefix, path_join dirname name = prefix ++ name
                 /\ (prefix = [] \/ exists q, prefix = q ++ py "/").
Proof.
  intros Hname. unfold path_join.
  assert (Hstart : startswith name (py "/") = false).
  { destruct name as [|c name]; [reflexivity|].
    cbn [mem existsb] in Hname. apply orb_false_iff in Hname as [Hc _].
    unfold py. cbn [list_ascii_of_string startswith]. now rewrite Hc. }
  rewrite Hstart. destruct (str_eqb dirname []) eqn:Enil.
  - apply str_eqb_eq in Enil. subst dirname. exists []. auto.
  - cbn [orb]. destruct (startswith (rev dirname) (py "/")) eqn:Eslash.
    + exists dirname. split; [reflexivity | right].
      apply startswith_split in Eslash as [r Hr]. exists (rev r).
      rewrite <- (rev_involutive dirname), Hr. cbn. reflexivity.
    + exists (dirname ++ py "/"). split; [now rewrite <- app_assoc|].
      right. now exists dirname.
Qed.

(** The first dot of a text is in one place. *)
Lemma first_dot_unique (a b x y : str) :
  mem "." a = false -> mem "." b = false ->
  a ++ "."%char :: x = b ++ "."%char :: y -> a = b /\ x = y.
Proof.
  revert b. induction a as [|c a IH]; intros [|d b] Ha Hb H.
  - injection H as ->. auto.
  - injection H as <- _. discriminate Hb.
  - injection H as -> _. discriminate Ha.
  - injection H as -> H. cbn [mem existsb] in Ha, Hb.
    apply orb_false_iff in Ha as [_ Ha]. apply orb_false_iff in Hb as [_ Hb].
    destruct (IH b Ha Hb H) as [-> ->]. auto.
Qed.

(** An identifier, with or without a newline behind it, has no dot. *)
Lemma identifier_no_dot (b : str) :
  truthy (re_match_dollar pat_identifier b) = true -> mem "." b = false.
Proof.
  unfold re_match_dollar, pat_identifier. destruct b as [|c t]; [reflexivity|].
  destruct (is_ident_start c) eqn:Ec; [|discriminate].
  set (n := span_len is_word t).
  destruct (at_dollar (c :: t) (S n)) eqn:Ed; [|discriminate]. intros _.
  cbn [mem existsb]. apply orb_false_iff. split.
  - destruct (Ascii.eqb "." c) eqn:E; [|reflexivity].
    apply Ascii.eqb_eq in E. subst c. discriminate Ec.
  - unfold at_dollar in Ed. cbn [skipn] in Ed.
    change (mem "." t = false).
    rewrite <- (firstn_skipn n t). rewrite mem_app. apply orb_false_iff.
    split.
    + apply mem_false_of_forallb with (p := is_word); [reflexivity|].
      apply span_len_forallb.
    + destruct (skipn n t) as [|x [|x' u]]; [reflexivity | | discriminate].
      apply Ascii.eqb_eq in Ed. now subst x.
Qed.

(** Among the entries of a directory, the module files whose names start
    with [__init__.] are the five [__init__] files. *)
Lemma init_module_test (fs : filesystem) (dirname name : str) :
  mem "/" name = false ->
  startswith name (py "__init__.")
  && module_file_test fs (path_join dirname name)
  = str_in name INIT_MODULE_NAMES && isfile fs (path_join dirname name).
Proof.
  intros Hname. unfold module_file_test.
  destruct (path_join_name dirname name Hname) as (prefix & -> & Hprefix).
  rewrite (path_split_tail prefix name Hprefix Hname).
  destruct (isfile fs (prefix ++ name)).
  2:{ cbn [andb]. now rewrite !andb_false_r. }
  cbn [andb]. rewrite andb_true_r.
  destruct (str_in name INIT_MODULE_NAMES) eqn:Einit.
  - apply str_in_In in Einit. unfold INIT_MODULE_NAMES in Einit.
    cbn [map In] in Einit.
    repeat (destruct Einit as [<- | Einit]; [reflexivity|]).
    contradiction.
  - destruct (startswith name (py "__init__.")) eqn:Estart; [|reflexivity].
    cbn [andb].
    destruct (truthy (re_match_dollar pat_identifier (fst (splitext name))))
      eqn:Eid; [|reflexivity].
    cbn [andb].
    destruct (str_in (snd (splitext name))
                     (PY_SRC_EXTENSIONS ++ PY_BIN_EXTENSIONS)) eqn:Eext;
      [|reflexivity].
    exfalso. apply str_in_not_In in Einit. apply Einit.
    apply str_in_In in Eext. apply identifier_no_dot in Eid.
    apply startswith_split in Estart as [r Hr].
    pose proof (splitext_app name) as Happ.
    remember (fst (splitext name)) as b eqn:Hb.
    remember (snd (splitext name)) as e eqn:He.
    clear Hb He.
    assert (Hcut : exists e', e = "."%char :: e').
    { cbn [PY_SRC_EXTENSIONS PY_BIN_EXTENSIONS app In] in Eext.
      repeat (destruct Eext as [<- | Eext]; [now eexists|]).
      contradiction. }
    destruct Hcut as [e' He'].
    rewrite He', Hr in Happ.
    change (py "__init__." ++ r) with (py "__init__" ++ "."%char :: r) in Happ.
    apply first_dot_unique in Happ as [Hstem Hrest]; [|exact Eid|reflexivity].
    rewrite Hr. change (py "__init__." ++ r)
      with (py "__init__" ++ "."%char :: r).
    rewrite <- Hrest, <- He'.
    cbn [PY_SRC_EXTENSIONS PY_BIN_EXTENSIONS app In] in Eext.
    unfold INIT_MODULE_NAMES. cbn [map In].
    repeat (destruct Eext as [<- | Eext]; [cbn; tauto|]).
    contradiction.
Qed.

Lemma has_init_module_existsb (fs : filesystem) (dirname : str)
      (names : list str) :
  Forall (fun name => mem "/" name = false) names ->
  has_init_module fs dirname names
  = Ok (PyBool (existsb (fun name =>
                           str_in name INIT_MODULE_NAMES
                           && isfile fs (path_join dirname name)) names)).
Proof.
  induction names as [|name rest IH]; intros Hnames; [reflexivity|].
  apply Forall_cons_iff in Hnames as [Hname Hrest].
  cbn [has_init_module existsb].
  rewrite <- (init_module_test fs dirname name Hname).
  destruct (is_module_file_truthy fs (path_join dirname name))
    as (v & Hv & Htruthy).
  destruct (startswith name (py "__init__.")).
  - rewrite Hv. cbn [bind andb]. rewrite Htruthy.
    destruct (module_file_test fs (path_join dirname name));
      [reflexivity | now apply IH].
  - now apply IH.
Qed.

(** X13. For a directory that can be listed, [is_package_dir] answers
    [True] exactly when one of [__init__.py], [__init__.pyw],
    [__init__.pyc], [__init__.so] and [__init__.pyd] is a file of it: no
    other entry that starts with [__init__.] counts. *)
Theorem is_package_dir_init_files
        (fs : filesystem) (dirname : str) (names : list str) :
  isdir fs dirname = true ->
  listdir fs (abspath fs dirname) = Ok names ->
  Forall (fun name => mem "/" name = false) names ->
  is_package_dir fs (PyStr dirname)
  = Ok (PyBool (existsb (fun name =>
                           str_in name INIT_MODULE_NAMES
                           && isfile fs (path_join (abspath fs dirname) name))
                        names)).
Proof.
  intros Hdir Hlist Hnames. unfold is_package_dir. cbn [as_string].
  rewrite Hdir. cbn [negb].
  destruct (path_split (abspath fs dirname)) as [parent dir].
  destruct (if str_eqb dir [] then path_split parent else (parent, dir)).
  rewrite Hlist. cbn [bind]. now apply has_init_module_existsb.
Qed.

Lemma is_package_dir_init_files_witness :
  is_package_dir package_fs (PyStr (py "pkg")) = Ok (PyBool true).
Proof.
  refine (is_package_dir_init_files package_fs (py "pkg")
            [py "mod.py"; py "__init__.pyc"] eq_refl eq_refl _).
  repeat constructor.
Defined.

(** X14. A path [is_module_file] accepts names a file that exists and
    ends in one of the source and binary extensions. *)
Theorem is_module_file_has_extension
        (fs : filesystem) (path : str) (v : pyval) :
  is_module_file fs (PyStr path) = Ok v -> truthy v = true ->
  isfile fs path = true
  /\ exists stem ext,
       path = stem ++ ext
       /\ In ext (PY_SRC_EXTENSIONS ++ PY_BIN_EXTENSIONS).
Proof.
  intros Hv Htruthy.
  destruct (is_module_file_truthy fs path) as (v' & Hv' & Htest).
  assert (v' = v) by congruence. subst v'. rewrite Htruthy in Htest.
  symmetry in Htest. unfold module_file_test in Htest.
  apply andb_true_iff in Htest as [Htest Hext].
  apply andb_true_iff in Htest as [Hfile _].
  split; [exact Hfile|]. apply str_in_In in Hext.
  set (name := snd (path_split path)) in *.
  exists (upto path (rfind path "/" + 1) ++ fst (splitext name)),
         (snd (splitext name)).
  split; [|exact Hext].
  rewrite <- app_assoc, splitext_app. unfold name, path_split. cbn [snd].
  unfold upto, from. symmetry. apply firstn_skipn.
Qed.

Lemma is_module_file_has_extension_witness :
  isfile package_fs (py "pkg/__init__.pyc") = true
  /\ exists stem ext,
       py "pkg/__init__.pyc" = stem ++ ext
       /\ In ext (PY_SRC_EXTENSIONS ++ PY_BIN_EXTENSIONS).
Proof.
  exact (is_module_file_has_extension package_fs (py "pkg/__init__.pyc")
           (PyBool true) eq_refl eq_refl).
Defined.

(** ** [TerminalController], again *)

Module TerminalControllerMore.
Import TerminalController.

(** X15. A template with no [$] in it is rendered as it is, on any
    controller. *)
Theorem render_plain_text (self : attrs) (template : str) :
  mem "$" template = false -> render self template = Ok template.
Proof.
  unfold render. induction template as [|c t IH]; intros H; [reflexivity|].
  cbn [mem existsb] in H. apply orb_false_iff in H as [Hc Ht].
  rewrite re_sub_function_cons_none.
  - now rewrite (IH Ht).
  - unfold pat_substitution. destruct t as [|c1 t].
    + each_char c; reflexivity.
    + each_char c; first [reflexivity | discriminate Hc].
Qed.

Lemma render_plain_text_witness :
  (self <- __init__ a_tty ;; render self (py "50% done"))
  = Ok (py "50% done").
Proof.
  destruct (__init__ a_tty) as [self|e] eqn:Hinit;
    [|vm_compute in Hinit; discriminate Hinit].
  exact (render_plain_text self (py "50% done") eq_refl).
Defined.

(** X16. On a terminal where [curses] cannot be imported the constructor
    returns, and the controller still gets the two capabilities of a
    progress bar: [BOL] is a carriage return and [CLEAR_LINE] a carriage
    return, 75 blanks and a carriage return; every other capability field
    stays empty. *)
Theorem controller_without_curses (t : terminal) :
  isatty t = true -> FORCE_SIMPLE_TERM t = false -> curses t = None ->
  (self <- __init__ t ;; getattr self (py "BOL")) = Ok (PyStr [CR])
  /\ (self <- __init__ t ;; getattr self (py "CLEAR_LINE"))
     = Ok (PyStr (CR :: repeat SP 75 ++ [CR]))
  /\ (forall name, In name CAPABILITY_FIELDS ->
                   name <> py "BOL" -> name <> py "CLEAR_LINE" ->
                   (self <- __init__ t ;; getattr self name)
                   = Ok (PyStr []))
  /\ (self <- __init__ t ;; render self (py "${BOL}${BOLD}x${NORMAL}"))
     = Ok (CR :: py "x").
Proof.
  intros Htty Hforce Hcurses. unfold __init__.
  rewrite Htty, Hforce, Hcurses. cbn [negb bind].
  split; [reflexivity|]. split; [reflexivity|]. split; [|reflexivity].
  intros name Hin Hbol Hclear. unfold CAPABILITY_FIELDS in Hin.
  cbn [map In] in Hin.
  repeat (destruct Hin as [<- | Hin];
          [first [reflexivity | now elim Hbol | now elim Hclear]|]).
  contradiction.
Qed.

Lemma controller_without_curses_witness :
  (self <- __init__ {| isatty := true; FORCE_SIMPLE_TERM := false;
                       curses := None |} ;;
   getattr self (py "BOL")) = Ok (PyStr [CR]).
Proof.
  exact (proj1 (controller_without_curses
                  {| isatty := true; FORCE_SIMPLE_TERM := false;
                     curses := None |} eq_refl eq_refl eq_refl)).
Defined.

(** *** What [_tigetstr] and [_tparm] return *)

Lemma pat_delay_no_dollar (c : ascii) (t : str) :
  Ascii.eqb "$" c = false -> pat_delay (c :: t) = None.
Proof.
  intros H. unfold pat_delay. destruct t as [|c1 t];
    each_char c; first [reflexivity | discriminate H].
Qed.

Lemma pat_delay_progresses : progresses pat_delay.
Proof.
  intros s n. unfold pat_delay.
  destruct s as [|c0 [|c1 t]]; try discriminate.
  - each_char c0; discriminate.
  - destruct (Ascii.eqb c0 "$") eqn:E0.
    2:{ each_char c0; try discriminate. }
    apply Ascii.eqb_eq in E0. subst c0.
    destruct (Ascii.eqb c1 "<") eqn:E1.
    2:{ each_char c1; try discriminate. }
    apply Ascii.eqb_eq in E1. subst c1.
    destruct (span_len isdigit t) as [|k] eqn:Ek; [discriminate|].
    destruct (skipn (S k) t) as [|c u] eqn:Eu; [discriminate|].
    assert (Hlen : length (c :: u) = length t - S k)
      by (rewrite <- Eu; apply length_skipn).
    destruct (Ascii.eqb c ">") eqn:E2.
    2:{ each_char c; try discriminate. }
    apply Ascii.eqb_eq in E2. subst c.
    destruct u as [|x u].
    + intros [= <-]. cbn [length] in *. lia.
    + destruct (Ascii.eqb x "/" || Ascii.eqb x "*");
        intros [= <-]; cbn [length] in *; lia.
Qed.

(** Text with no [$] holds no delay, and is copied. *)
Lemma strip_delays_prefix (a s : str) :
  mem "$" a = false ->
  re_sub pat_delay (fun _ => Ok []) (a ++ s)
  = (r <- re_sub pat_delay (fun _ => Ok []) s ;; Ok (a ++ r)).
Proof.
  intros Ha. induction a as [|c a IH].
  - cbn [app]. destruct (re_sub pat_delay _ s); reflexivity.
  - cbn [mem existsb] in Ha. apply orb_false_iff in Ha as [Hc Ha].
    cbn [app]. rewrite re_sub_cons_none by now apply pat_delay_no_dollar.
    rewrite (IH Ha). destruct (re_sub pat_delay _ s); reflexivity.
Qed.

Lemma strip_delays_plain (s : str) :
  mem "$" s = false -> re_sub pat_delay (fun _ => Ok []) s = Ok s.
Proof.
  intros H. rewrite <- (app_nil_r s) at 1.
  rewrite (strip_delays_prefix s [] H). cbn. now rewrite app_nil_r.
Qed.

Lemma forallb_skipn (p : ascii -> bool) (n : nat) :
  forall s, forallb p s = true -> forallb p (skipn n s) = true.
Proof.
  induction n as [|n IH]; intros s H; [exact H|].
  destruct s as [|c t]; [reflexivity|]. cbn [skipn].
  cbn [forallb] in H. apply andb_true_iff in H as [_ Ht]. now apply IH.
Qed.

(** Removing the delays never raises, and leaves characters of the
    capability only. *)
Lemma strip_delays_returns (p : ascii -> bool) :
  forall fuel s,
    exists r, re_sub_from pat_delay (fun _ => Ok []) fuel s = Ok r
              /\ (forallb p s = true -> forallb p r = true).
Proof.
  induction fuel as [|fuel IH]; intros s.
  - exists s. split; [reflexivity | auto].
  - destruct s as [|c t]; [exists []; split; [reflexivity | auto]|].
    cbn [re_sub_from]. destruct (pat_delay (c :: t)) as [n|].
    + destruct (IH (skipn n (c :: t))) as (r & Hr & Hp).
      exists r. rewrite Hr. split; [reflexivity|].
      intros H. apply Hp. now apply forallb_skipn.
    + destruct (IH t) as (r & Hr & Hp).
      exists (c :: r). rewrite Hr. split; [reflexivity|].
      cbn [forallb]. intros H. apply andb_true_iff in H as [Hc Ht].
      now rewrite Hc, (Hp Ht).
Qed.

Lemma tigetstr_ascii (c : curses_module) (cap_name s : str) :
  _tigetstr c cap_name = Ok s -> forallb is_ascii s = true.
Proof.
  unfold _tigetstr. cbv zeta. destruct (re_sub pat_delay _ _) as [cap|e];
    cbn [bind]; [|discriminate].
  unfold decode_ascii_text. destruct (forallb is_ascii cap) eqn:E;
    [|discriminate].
  intros H. assert (cap = s) by congruence. now subst.
Qed.

Lemma tigetstr_raises (c : curses_module) (cap_name : str) (e : exn) :
  _tigetstr c cap_name = Raise e -> e = UnicodeDecodeError.
Proof.
  unfold _tigetstr, re_sub. cbv zeta.
  set (cap := match tigetstr c cap_name with Some s => s | None => [] end).
  destruct (strip_delays_returns (fun _ => true) (length cap) cap)
    as (r & Hr & _).
  rewrite Hr. cbn [bind]. unfold decode_ascii_text.
  destruct (forallb is_ascii r); [discriminate|]. congruence.
Qed.



(** *** The loops of the constructor *)















(** X19. [_tigetstr] gives the empty string for a capability the terminal
    lacks.  For a capability that holds no [$] it gives the string of the
    terminal, and for one that holds one delay [$<digits>] (with [/] or
    [*] behind it or not) the string without the delay, when what is left
    is ASCII; it raises [UnicodeDecodeError] when what is left holds a
    byte over 127.  It raises nothing else, and what it returns is ASCII. *)
Theorem tigetstr_strips_delay (c : curses_module) (cap_name : str) :
  (tigetstr c cap_name = None -> _tigetstr c cap_name = Ok [])
  /\ (forall cap, tigetstr c cap_name = Some cap -> mem "$" cap = false ->
                  _tigetstr c cap_name
                  = if forallb is_ascii cap then Ok cap
                    else Raise UnicodeDecodeError)
  /\ (forall a digits suffix b,
         tigetstr c cap_name
         = Some (a ++ py "$<" ++ digits ++ py ">" ++ suffix ++ b) ->
         mem "$" a = false -> mem "$" b = false ->
         digits <> [] -> forallb isdigit digits = true ->
         suffix = py "/" \/ suffix = py "*"
         \/ (suffix = []
             /\ match b with
                | x :: _ => Ascii.eqb x "/" || Ascii.eqb x "*" = false
                | [] => True
                end) ->
         _tigetstr c cap_name
         = if forallb is_ascii (a ++ b) then Ok (a ++ b)
           else Raise UnicodeDecodeError)
  /\ (forall s, _tigetstr c cap_name = Ok s -> forallb is_ascii s = true)
  /\ (forall e, _tigetstr c cap_name = Raise e -> e = UnicodeDecodeError).
Proof.
  split; [|split; [|split; [|split]]].
  - unfold _tigetstr. intros ->. reflexivity.
  - unfold _tigetstr. intros cap -> Hcap. now rewrite strip_delays_plain.
  - unfold _tigetstr.
    intros a digits suffix b -> Ha Hb Hne Hdigits Hsuffix.
    rewrite (strip_delays_prefix a _ Ha).
    set (rest := suffix ++ b).
    assert (Hspan : span_len isdigit (digits ++ ">"%char :: rest)
                    = length digits)
      by (now apply span_len_app_stop).
    assert (Hmatch : pat_delay (py "$<" ++ digits ++ py ">" ++ rest)
                     = Some (length (py "$<" ++ digits ++ py ">" ++ suffix))).
    { unfold py at 1 2. cbn [list_ascii_of_string app pat_delay].
      rewrite Hspan. destruct digits as [|d digits]; [congruence|].
      change (length (d :: digits)) with (S (length digits)). cbv iota.
      change (S (length digits)) with (length (d :: digits)).
      rewrite skipn_app_exact. unfold rest.
      rewrite !length_app. cbn [length].
      change (length (py "$<")) with 2. change (length (py ">")) with 1.
      destruct Hsuffix as [-> | [-> | [-> Hb0]]].
      - cbn. f_equal. lia.
      - cbn. f_equal. lia.
      - cbn [app length]. destruct b as [|x b].
        + f_equal. lia.
        + rewrite Hb0. f_equal. lia. }
    rewrite (@re_sub_match pat_delay _ _ _ pat_delay_progresses Hmatch).
    unfold rest.
    replace (py "$<" ++ digits ++ py ">" ++ suffix ++ b)
      with ((py "$<" ++ digits ++ py ">" ++ suffix) ++ b)
      by (now rewrite <- !app_assoc).
    rewrite skipn_app_exact. cbn [bind].
    rewrite (strip_delays_plain b Hb). cbn [bind app].
    reflexivity.
  - apply tigetstr_ascii.
  - apply tigetstr_raises.
Qed.

Example tigetstr_sample :
  _tigetstr sample_curses (py "sgr0") = Ok (ESC :: py "[m")
  /\ _tigetstr sample_curses (py "smul") = Ok []
  /\ _tigetstr eight_bit_curses (py "el") = Raise UnicodeDecodeError.
Proof. split; [|split]; reflexivity. Qed.

Lemma tigetstr_strips_delay_witness :
  _tigetstr sample_curses (py "sgr0") = Ok (ESC :: py "[m" ++ [])
  /\ _tigetstr eight_bit_curses (py "el") = Raise UnicodeDecodeError.
Proof.
  split.
  - apply (proj1 (proj2 (proj2 (tigetstr_strips_delay sample_curses
                                  (py "sgr0"))))
                 (ESC :: py "[m") (py "2") [] []).
    + reflexivity.
    + reflexivity.
    + reflexivity.
    + discriminate.
    + reflexivity.
    + right. right. split; [reflexivity | exact I].
  - exact (proj1 (proj2 (tigetstr_strips_delay eight_bit_curses (py "el")))
                 (CSI :: py "K") eq_refl eq_refl).
Defined.

End TerminalControllerMore.
